(** * Kindling collector: DNS response decoder and Dubbo attribute readers

    A shallow embedding of
    - [collector/pkg/component/analyzer/network/protocol/dns/dns_response.go]
    - the Dubbo serializer readers (package [dubbo]: Hessian2, Fastjson and
      the unsupported fallback),
    together with the cursor-based readers of the payload message buffer
    that the DNS decoder calls.

    Conventions.
    - A Go [[]byte] is a [list byte]; a Go [string] obtained from
      [string(data[a:b])] is the same list of bytes.
    - A Go [int] is a [Z].  Every [int] computed below is bounded by the
      length of a slice plus a few hundred, so the 64-bit wrap-around of
      [int] is never reached; [uint16] and [byte] arithmetic is written
      with its wrap-around.
    - A run-time panic (index or slice bounds out of range) is [None] in
      the [option] monad; [Some v] is a normal return of [v]. *)

From Stdlib Require Import ZArith List Lia Strings.Byte Strings.String.
From stdpp Require Import base option list gmap strings numbers pretty.

Local Open Scope Z_scope.

(** ** Go slices and loops *)

Module Go.

#[export] Instance byte_eq_dec : EqDecision byte := Byte.byte_eq_dec.

(** [int(b)] for a byte [b]. *)
Definition u8 (b : byte) : Z := Z.of_N (Byte.to_N b).

(** [len(data)]. *)
Definition len (data : list byte) : Z := Z.of_nat (length data).

(** [data[i]]: panics unless [0 <= i < len(data)]. *)
Definition index (data : list byte) (i : Z) : option byte :=
  if decide (0 <= i) then data !! Z.to_nat i else None.

(** [data[lo:hi]]: panics unless [0 <= lo <= hi <= len(data)] (every
    slice expression below has [hi <= len(data)], so the capacity of the
    slice plays no role). *)
Definition slice (data : list byte) (lo hi : Z) : option (list byte) :=
  if decide (0 <= lo /\ lo <= hi /\ hi <= len data)
  then Some (take (Z.to_nat (hi - lo)) (drop (Z.to_nat lo) data))
  else None.

(** [data[lo:]]. *)
Definition slice_from (data : list byte) (lo : Z) : option (list byte) :=
  slice data lo (len data).

(** [a && b] with Go's short-circuit: [b] is evaluated (and may panic)
    only when [a] is true. *)
Definition and_then (a b : option bool) : option bool :=
  x ← a; if x : bool then b else Some false.

(** Outcome of one loop iteration: go on with the loop state, or leave
    the loop ([return] or [break]) with a value. *)
Inductive flow (S R : Type) : Type :=
| Continue (s : S)
| Exit (r : R).
Arguments Continue {S R} s.
Arguments Exit {S R} r.

(** [n] iterations of a loop body from index [i], the index increasing
    by one each time; an iteration can leave the loop or panic. *)
Fixpoint iterate {S R : Type} (body : Z -> S -> option (flow S R))
    (n : nat) (i : Z) (s : S) : option (flow S R) :=
  match n with
  | O => Some (Continue s)
  | Datatypes.S n' =>
      match body i s with
      | None => None
      | Some (Exit r) => Some (Exit r)
      | Some (Continue s') => iterate body n' (i + 1) s'
      end
  end.

(** [for i := lo; i < hi; i++ { body }] where the body assigns neither
    [i] nor [hi]: the loop runs [hi - lo] times (not at all when
    [hi <= lo]). *)
Definition for_range {S R : Type} (lo hi : Z)
    (body : Z -> S -> option (flow S R)) (s : S) : option (flow S R) :=
  iterate body (Z.to_nat (hi - lo)) lo s.

(** The same for a body that cannot panic and only ever leaves the loop by
    [break]: the result is the loop state at the end. *)
Fixpoint iterate_break {S : Type} (body : Z -> S -> flow S S)
    (n : nat) (i : Z) (s : S) : S :=
  match n with
  | O => s
  | Datatypes.S n' =>
      match body i s with
      | Exit s' => s'
      | Continue s' => iterate_break body n' (i + 1) s'
      end
  end.

Definition for_range_break {S : Type} (lo hi : Z)
    (body : Z -> S -> flow S S) (s : S) : S :=
  iterate_break body (Z.to_nat (hi - lo)) lo s.

End Go.

Export Go.

(** ** Package dubbo: serializer readers *)

Module Dubbo.

Definition JsonNextLine : byte := x0a.
Definition JsonQutoes : byte := x22.
Definition JsonColon : byte := x3a.

Definition SerialHessian2 : byte := x02.
Definition SerialFastjson : byte := x06.

(** The interface [dubboSerializer]. *)
Record dubboSerializer : Type := {
  eatString : list byte -> Z -> option Z;
  getStringValue : list byte -> Z -> option (Z * list byte);
  getStringValueByKey : list byte -> Z -> list byte -> option (list byte)
}.

(** *** Hessian2 *)
Module dubboHessian.

(** [tag >= 0x30 && tag <= 0x33]. *)
Definition is_len2_tag (tag : byte) : bool :=
  bool_decide (0x30 <= u8 tag) && bool_decide (u8 tag <= 0x33).

(** [int(tag-0x30)<<8 + int(next)]: the subtraction is on bytes, the
    shift binds tighter than the addition. *)
Definition len2 (tag next : byte) : Z :=
  Z.shiftl ((u8 tag - 0x30) mod 256) 8 + u8 next.

Definition eatString (data : list byte) (offset : Z) : option Z :=
  let dataLength := len data in
  if decide (offset >= dataLength) then Some dataLength
  else
    tag ← index data offset;
    if is_len2_tag tag then
      if decide (offset + 1 = dataLength) then Some dataLength
      else
        next ← index data (offset + 1);
        Some (offset + 2 + len2 tag next)
    else Some (offset + 1 + u8 tag).

(** The tail of [getStringValue], after the tag has been decoded into
    [stringValueLength] and [offset] moved past the tag. *)
Definition readValue (data : list byte) (offset stringValueLength : Z)
    : option (Z * list byte) :=
  if decide (offset + stringValueLength >= len data) then
    s ← slice_from data offset; Some (len data, s)
  else
    s ← slice data offset (offset + stringValueLength);
    Some (offset + stringValueLength, s).

Definition getStringValue (data : list byte) (offset : Z)
    : option (Z * list byte) :=
  let dataLength := len data in
  if decide (offset >= dataLength) then Some (dataLength, [])
  else
    tag ← index data offset;
    if is_len2_tag tag then
      if decide (offset + 1 = dataLength) then Some (dataLength, [])
      else
        next ← index data (offset + 1);
        readValue data (offset + 2) (len2 tag next)
    else readValue data (offset + 1) (u8 tag).

Definition getStrValue (data : list byte) (dataLength index length : Z)
    : option (list byte) :=
  if decide (index >= dataLength) then Some []
  else if decide (index + length >= len data) then Some []
  else slice data index (index + length).

Definition getStringValueByKey (data : list byte) (from : Z)
    (key : list byte) : option (list byte) :=
  let keyLength := len key in
  let dataLength := len data in
  firstKeyword ← index key 0;
  r ← for_range from dataLength
        (fun i (_ : unit) =>
           b ← index data i;
           if decide (b = firstKeyword) then
             matchKey ← getStrValue data dataLength i keyLength;
             if decide (matchKey = key) then
               '(_, value) ← getStringValue data (i + keyLength);
               Some (Exit value)
             else Some (Continue tt)
           else Some (Continue tt))
        tt;
  match r with
  | Exit value => Some value
  | Continue _ => Some []
  end.

Definition serializer : dubboSerializer :=
  {| Dubbo.eatString := eatString;
     Dubbo.getStringValue := getStringValue;
     Dubbo.getStringValueByKey := getStringValueByKey |}.

End dubboHessian.

(** *** Fastjson *)
Module dubboFastJson.

(** One iteration of the loop of [eatString]. *)
Definition eatStep (data : list byte) (i : Z) (_ : unit)
    : option (flow unit Z) :=
  b ← index data i;
  if decide (b = JsonNextLine) then Some (Exit (i + 1))
  else Some (Continue tt).

Definition eatString (data : list byte) (offset : Z) : option Z :=
  let dataLength := len data in
  if decide (offset >= dataLength) then Some dataLength
  else
    r ← for_range (offset + 1) dataLength (eatStep data) tt;
    match r with
    | Exit v => Some v
    | Continue _ => Some dataLength
    end.

(** One iteration of the loop of [getStringValue]. *)
Definition valueStep (data : list byte) (offset i : Z) (_ : unit)
    : option (flow unit (Z * list byte)) :=
  b ← index data i;
  if decide (b = JsonNextLine) then
    s ← slice data (offset + 1) (i - 1);
    Some (Exit (i + 1, s))
  else Some (Continue tt).

Definition getStringValue (data : list byte) (offset : Z)
    : option (Z * list byte) :=
  let dataLength := len data in
  if decide (offset >= dataLength) then Some (dataLength, [])
  else
    r ← for_range (offset + 1) dataLength (valueStep data offset) tt;
    match r with
    | Exit v => Some v
    | Continue _ => Some (dataLength, [])
    end.

Definition getNextString (data : list byte) (dataLength offset : Z)
    : option (list byte) :=
  if decide (offset >= dataLength) then Some []
  else
    r ← for_range (offset + 1) dataLength
          (fun i (_ : unit) =>
             b ← index data i;
             if decide (b = JsonQutoes) then
               s ← slice data (offset + 1) i;
               Some (Exit s)
             else Some (Continue tt))
          tt;
    match r with
    | Exit v => Some v
    | Continue _ => Some []
    end.

(** One iteration of the scan of [getStringValueByKey]; the loop state
    is [quoteLeft]. *)
Definition scanStep (data key : list byte) (i quoteLeft : Z)
    : option (flow Z (list byte)) :=
  let keyLength := len key in
  let dataLength := len data in
  b ← index data i;
  if decide (b = JsonQutoes) then
    if decide (quoteLeft = 0) then Some (Continue i)
    else
      sep ← and_then
              (b1 ← index data (i + 1); Some (bool_decide (b1 = JsonColon)))
              (b2 ← index data (i + 2); Some (bool_decide (b2 = JsonQutoes)));
      if sep : bool then
        hit ← and_then
                (Some (bool_decide (i - quoteLeft - 1 = keyLength)))
                (s ← slice data (quoteLeft + 1) i;
                 Some (bool_decide (s = key)));
        if hit : bool then
          value ← getNextString data dataLength (i + 2);
          Some (Exit value)
        else Some (Continue 0)
      else Some (Continue 0)
  else Some (Continue quoteLeft).

Definition getStringValueByKey (data : list byte) (from : Z)
    (key : list byte) : option (list byte) :=
  r ← for_range from (len data) (scanStep data key) 0;
  match r with
  | Exit value => Some value
  | Continue _ => Some []
  end.

Definition serializer : dubboSerializer :=
  {| Dubbo.eatString := eatString;
     Dubbo.getStringValue := getStringValue;
     Dubbo.getStringValueByKey := getStringValueByKey |}.

End dubboFastJson.

(** *** Unsupported serialization *)
Module dubboUnsupport.

Definition eatString (data : list byte) (offset : Z) : option Z :=
  Some 0.

Definition getStringValue (data : list byte) (offset : Z)
    : option (Z * list byte) :=
  Some (0, []).

Definition getStringValueByKey (data : list byte) (offset : Z)
    (key : list byte) : option (list byte) :=
  Some [].

Definition serializer : dubboSerializer :=
  {| Dubbo.eatString := eatString;
     Dubbo.getStringValue := getStringValue;
     Dubbo.getStringValueByKey := getStringValueByKey |}.

End dubboUnsupport.

Definition serialHessian2 : dubboSerializer := dubboHessian.serializer.
Definition serialFastjson : dubboSerializer := dubboFastJson.serializer.
Definition serialUnsupport : dubboSerializer := dubboUnsupport.serializer.

Definition GetSerializer (serialID : byte) : dubboSerializer :=
  if decide (serialID = SerialHessian2) then serialHessian2
  else if decide (serialID = SerialFastjson) then serialFastjson
  else serialUnsupport.

End Dubbo.

(** ** Fastjson fields *)

Module FastjsonFields.
Import Dubbo.

(** A field ["key":"value"], a field followed by a newline, and a run
    of such lines. *)
Definition field (key value : list byte) : list byte :=
  JsonQutoes :: key ++ JsonQutoes :: JsonColon :: JsonQutoes :: value
    ++ [JsonQutoes].

Definition line (kv : list byte * list byte) : list byte :=
  field kv.1 kv.2 ++ [JsonNextLine].

Definition lines (kvs : list (list byte * list byte)) : list byte :=
  concat (line <$> kvs).

(** A line the scan for [key] passes over: another key, and no quote
    inside the key or the value. *)
Definition other_line (key : list byte) (kv : list byte * list byte)
    : Prop :=
  kv.1 <> key /\ (JsonQutoes ∉ kv.1) /\ (JsonQutoes ∉ kv.2).

(** The last byte of [data], if there is one, is neither a quote nor a
    colon. *)
Definition endsOutsideField (data : list byte) : Prop :=
  forall b, index data (len data - 1) = Some b ->
            b <> JsonQutoes /\ b <> JsonColon.

(** A field for [key] up to and with the opening quote of its value. *)
Definition fieldStart (key : list byte) : list byte :=
  JsonQutoes :: key ++ [JsonQutoes; JsonColon; JsonQutoes].

(** The offset of a loop outcome of [getStringValue], to compare it with
    the outcome of [eatString]. *)
Definition offsetOnly (r : flow unit (Z * list byte)) : flow unit Z :=
  match r with
  | Continue s => Continue s
  | Exit (n, _) => Exit n
  end.

End FastjsonFields.

(** ** Payload message buffer *)

Module Protocol.

(** An attribute value: [int64], [string] or [bool]. *)
Inductive AttrValue : Type :=
| IntValue (v : Z)
| StringValue (v : string)
| BoolValue (v : bool).

(** Modelled from the spec: the declaration of [PayloadMessage] is not among
    the sources.  The spec gives [{ data: byte view, offset: cursor, ...,
    attributes: mapping from string to (int64 | string | bool) }]; the decoder
    reads [message.Data] and reads and assigns [message.Offset]. *)
Record PayloadMessage : Type := {
  Data : list byte;
  Offset : Z;
  attributeMap : gmap string AttrValue
}.

Definition setOffset (offset : Z) (m : PayloadMessage) : PayloadMessage :=
  {| Data := Data m; Offset := offset; attributeMap := attributeMap m |}.

(** Big-endian value of a run of bytes. *)
Definition bigEndian (bytes : list byte) : Z :=
  fold_left (fun acc b => acc * 256 + u8 b) bytes 0.

(** Modelled from the spec: the readers of the payload message buffer are not
    among the sources.  [read_uint8/16/32/64(offset)] is big-endian and
    returns [(incomplete, value)]; a read whose bytes are not all inside the
    buffer reports [incomplete = true] (with value [0]).  The reader is given
    the offset to read at and writes nothing: the cursor [Offset] stays as it
    is. *)
Definition readUInt (width : Z) (m : PayloadMessage) (offset : Z) : bool * Z :=
  match slice (Data m) offset (offset + width) with
  | Some bytes => (false, bigEndian bytes)
  | None => (true, 0)
  end.

Definition ReadUInt8 : PayloadMessage -> Z -> bool * Z := readUInt 1.
Definition ReadUInt16 : PayloadMessage -> Z -> bool * Z := readUInt 2.
Definition ReadUInt32 : PayloadMessage -> Z -> bool * Z := readUInt 4.
Definition ReadUInt64 : PayloadMessage -> Z -> bool * Z := readUInt 8.

(** Modelled from the spec: [read_bytes(offset, length) -> (new_offset,
    bytes | nil)], nil when [offset+length] exceeds the buffer; on nil the
    offset handed back is the one given (the cursor is left unchanged). *)
Definition ReadBytes (m : PayloadMessage) (offset length : Z)
    : Z * option (list byte) :=
  match slice (Data m) offset (offset + length) with
  | Some bytes => (offset + length, Some bytes)
  | None => (offset, None)
  end.

(** Position of the first [delimiter] in [bytes], counted from [i]. *)
Fixpoint findByte (delimiter : byte) (bytes : list byte) (i : Z) : option Z :=
  match bytes with
  | [] => None
  | b :: rest =>
      if decide (b = delimiter) then Some i
      else findByte delimiter rest (i + 1)
  end.

(** Modelled from the spec: [read_until(offset, delimiter_byte) ->
    (new_offset, bytes)], with the [incomplete] flag every operation returns.
    The bytes are those from [offset] up to the first delimiter, and the new
    offset is just past it; when no delimiter lies between [offset] and the
    end of the buffer the read is incomplete and the offset is handed back
    unchanged. *)
Definition read_until (m : PayloadMessage) (offset : Z) (delimiter : byte)
    : bool * (Z * list byte) :=
  match slice_from (Data m) offset with
  | Some tail =>
      match findByte delimiter tail offset with
      | Some at_ =>
          match slice (Data m) offset at_ with
          | Some bytes => (false, (at_ + 1, bytes))
          | None => (true, (offset, []))
          end
      | None => (true, (offset, []))
      end
  | None => (true, (offset, []))
  end.

(** Modelled from the spec: [read_length_prefixed_string(offset,
    prefix_width)]: a big-endian length of [prefix_width] bytes, then that
    many bytes; incomplete, with the offset handed back unchanged, when the
    prefix or the string does not lie inside the buffer. *)
Definition read_length_prefixed_string (m : PayloadMessage)
    (offset prefix_width : Z) : bool * (Z * list byte) :=
  match readUInt prefix_width m offset with
  | (true, _) => (true, (offset, []))
  | (false, length) =>
      match ReadBytes m (offset + prefix_width) length with
      | (new_offset, Some bytes) => (false, (new_offset, bytes))
      | (_, None) => (true, (offset, []))
      end
  end.

(** Modelled from the spec: the attribute setters [add_string/int/bool(key,
    value)] write one entry of the attribute mapping. *)
Definition AddStringAttribute (key : string) (value : string)
    (m : PayloadMessage) : PayloadMessage :=
  {| Data := Data m; Offset := Offset m;
     attributeMap := <[key := StringValue value]> (attributeMap m) |}.

Definition AddIntAttribute (key : string) (value : Z)
    (m : PayloadMessage) : PayloadMessage :=
  {| Data := Data m; Offset := Offset m;
     attributeMap := <[key := IntValue value]> (attributeMap m) |}.

Definition AddBoolAttribute (key : string) (value : bool)
    (m : PayloadMessage) : PayloadMessage :=
  {| Data := Data m; Offset := Offset m;
     attributeMap := <[key := BoolValue value]> (attributeMap m) |}.

End Protocol.

(** ** Package dns: the response decoder *)

Module Dns.
Import Protocol.

(** Modelled from the spec: the attribute names of package [constlabels],
    as the spec lists them ([dns.domain], [dns.ip], [dns.id], [dns.rcode],
    [is_error]; [error_type] from the timeout and shutdown records). *)
Module constlabels.
Definition DnsDomain : string := "dns.domain".
Definition DnsIp : string := "dns.ip".
Definition DnsId : string := "dns.id".
Definition DnsRcode : string := "dns.rcode".
Definition IsError : string := "is_error".
Definition ErrorType : string := "error_type".
End constlabels.

Definition TypeA : Z := 1.
Definition TypeAAAA : Z := 28.

(** Modelled from the spec: [DNSHeaderSize] is declared in another file of
    the package; the header is 12 bytes. *)
Definition DNSHeaderSize : Z := 12.

(** What the decoder uses and this file does not define: two constants of
    the package, one of [constlabels], the question reader [readQuery] of the
    request decoder, and [net.IP.String] of the Go library.

    [readQuery message queryCount] returns the cursor it leaves in
    [message.Offset] and the domain, or no domain when it returns an error. *)
Class Env : Type := {
  MaxNumRR : Z;
  MaxMessageSize : Z;
  ProtocolError : Z;
  readQuery : PayloadMessage -> Z -> Z * option string;
  IP_String : list byte -> string
}.

Section Decoder.
Context {env : Env}.

(** [true] means: fail fast, the message is not handed to the parser. *)
Definition fastfailDnsResponse (message : PayloadMessage) : bool :=
  bool_decide (len (Data message) <= DNSHeaderSize)
  || bool_decide (len (Data message) > MaxMessageSize).

(** Sum of two [uint16]. *)
Definition add16 (a b : Z) : Z := (a + b) mod 65536.

(** [strings.Join(elems, sep)]. *)
Definition strings_Join (elems : list string) (sep : string) : string :=
  String.concat sep elems.

(** One iteration of the loop of [readIpV4Answer]; the loop state is
    [(offset, ips)], and [break] leaves the loop with the state. *)
Definition answerStep (message : PayloadMessage) (_ : Z)
    (st : Z * list string) : flow (Z * list string) (Z * list string) :=
  let '(offset, ips) := st in
  let offset := offset + 2 in
  let '(complete, aType) := ReadUInt16 message offset in
  if complete then Exit (offset, ips)
  else
    let offset := offset + 8 in
    let '(complete, length) := ReadUInt16 message offset in
    if complete then Exit (offset, ips)
    else
      let offset := offset + 2 in
      if decide (aType = TypeA) then
        let '(offset, ip) := ReadBytes message offset length in
        match ip with
        | None => Exit (offset, ips)
        | Some ip => Continue (offset + length, ips ++ [IP_String ip])
        end
      else Continue (offset + length, ips).

(** The loop of [readIpV4Answer]: the offset and the addresses it ends
    with. *)
Definition answerLoop (message : PayloadMessage) (answerCount : Z)
    : Z * list string :=
  for_range_break 0 answerCount (answerStep message) (Offset message, []).

Definition readIpV4Answer (message : PayloadMessage) (answerCount : Z)
    : PayloadMessage * string :=
  let '(offset, ips) := answerLoop message answerCount in
  let message := setOffset offset message in
  if decide (length ips = 0%nat) then (message, EmptyString)
  else (message, strings_Join ips ",").

Definition parseDnsResponse (message : PayloadMessage)
    : bool * bool * PayloadMessage :=
  let offset := Offset message in
  let id := (ReadUInt16 message offset).2 in
  let flags := (ReadUInt16 message (offset + 2)).2 in
  let qr := Z.land (Z.shiftr flags 15) 0x1 in
  let opcode := Z.land (Z.shiftr flags 11) 0xf in
  let rcode := Z.land flags 0xf in
  let numOfQuestions := (ReadUInt16 message (offset + 4)).2 in
  let numOfAnswers := (ReadUInt16 message (offset + 6)).2 in
  let numOfAuth := (ReadUInt16 message (offset + 8)).2 in
  let numOfAddl := (ReadUInt16 message (offset + 10)).2 in
  let numOfRR :=
    add16 (add16 (add16 numOfQuestions numOfAnswers) numOfAuth) numOfAddl in
  if bool_decide (qr = 0) || bool_decide (opcode > 2)
     || bool_decide (rcode > 5) || bool_decide (numOfQuestions = 0)
     || bool_decide (numOfRR > MaxNumRR)
  then (false, true, message)
  else
    let '(offset', result) := readQuery message numOfQuestions in
    let message := setOffset offset' message in
    match result with
    | None => (false, true, message)
    | Some domain =>
        let '(message, ip) := readIpV4Answer message numOfAnswers in
        let message :=
          AddStringAttribute constlabels.DnsDomain domain message in
        let message :=
          if bool_decide (0 < String.length ip)%nat
          then AddStringAttribute constlabels.DnsIp ip message
          else message in
        let message := AddIntAttribute constlabels.DnsId id message in
        let message := AddIntAttribute constlabels.DnsRcode rcode message in
        let message :=
          if bool_decide (rcode > 0) then
            AddIntAttribute constlabels.ErrorType ProtocolError
              (AddBoolAttribute constlabels.IsError true message)
          else message in
        (true, true, message)
    end.

(** The header fields as [parseDnsResponse] reads them, and the 16-bit sum
    of the four record counts it compares with [MaxNumRR]. *)
Definition headerWord (message : PayloadMessage) (k : Z) : Z :=
  (ReadUInt16 message (Offset message + k)).2.

Definition wrappedCount (message : PayloadMessage) : Z :=
  add16 (add16 (add16 (headerWord message 4) (headerWord message 6))
           (headerWord message 8)) (headerWord message 10).

End Decoder.
End Dns.

(** ** Answer records *)

Module DnsRecords.
Import Protocol Dns.

(** Answer records of other types than A laid out one after the other from
    the offset [o] on: each entry gives the type word and the data length
    of one record, both read in full. *)
Fixpoint otherRecordsAt (message : PayloadMessage) (o : Z)
    (records : list (Z * Z)) : Prop :=
  match records with
  | [] => True
  | (aType, rdlength) :: rest =>
      ReadUInt16 message (o + 2) = (false, aType) /\
      aType <> TypeA /\
      ReadUInt16 message (o + 2 + 8) = (false, rdlength) /\
      otherRecordsAt message (o + 2 + 8 + 2 + rdlength) rest
  end.

(** The offset just past these records. *)
Fixpoint endOfRecords (o : Z) (records : list (Z * Z)) : Z :=
  match records with
  | [] => o
  | (_, rdlength) :: rest => endOfRecords (o + 2 + 8 + 2 + rdlength) rest
  end.

End DnsRecords.

(** ** Sample inputs *)

Module Samples.
Import Protocol Dns.

(** Byte strings. *)
Definition bs (s : string) : list byte := list_byte_of_string s.
Definition q : list byte := [Dubbo.JsonQutoes].
Definition nl : list byte := [Dubbo.JsonNextLine].

(** A message as the analyzer hands it to a decoder: cursor at [0], no
    attribute yet. *)
Definition freshMessage (data : list byte) : PayloadMessage :=
  {| Data := data; Offset := 0; attributeMap := ∅ |}.

(** The bytes of an address in decimal, joined by dots: what
    [net.IP.String] prints for a 4-byte address. *)
Definition dotted (ip : list byte) : string :=
  String.concat "." ((fun b => pretty (u8 b)) <$> ip).

(** Labels of an uncompressed name: length-prefixed, ended by a zero
    length. *)
Fixpoint readLabels (fuel : nat) (m : PayloadMessage) (offset : Z)
    (labels : list string) : Z * option (list string) :=
  match fuel with
  | O => (offset, None)
  | Datatypes.S fuel' =>
      match ReadUInt8 m offset with
      | (true, _) => (offset, None)
      | (false, n) =>
          if decide (n = 0) then (offset + 1, Some labels)
          else
            match ReadBytes m (offset + 1) n with
            | (offset', Some label) =>
                readLabels fuel' m offset'
                  (labels ++ [string_of_list_byte label])
            | (_, None) => (offset, None)
            end
      end
  end.

(** A stand-in for the question reader: one uncompressed name after the
    header, then the type and class words. *)
Definition readQuestion (m : PayloadMessage) (queryCount : Z)
    : Z * option string :=
  match readLabels (length (Data m)) m (Offset m + DNSHeaderSize) [] with
  | (offset, Some labels) =>
      match ReadBytes m offset 4 with
      | (offset', Some _) => (offset', Some (String.concat "." labels))
      | (_, None) => (offset, None)
      end
  | (offset, None) => (offset, None)
  end.

(** The environment the samples run in: at most 25 records and 512 bytes
    per message. *)
Definition sampleEnv : Env :=
  {| MaxNumRR := 25;
     MaxMessageSize := 512;
     ProtocolError := 3;
     readQuery := readQuestion;
     IP_String := dotted |}.

(** Header: id [0x1234], the given flags and record counts, no authority
    and no additional records. *)
Definition header (flags qdcount ancount : list byte) : list byte :=
  [x12; x34] ++ flags ++ qdcount ++ ancount ++ [x00; x00; x00; x00].

(** The question [example.com IN A]. *)
Definition question : list byte :=
  [x07] ++ bs "example" ++ [x03] ++ bs "com" ++ [x00]
    ++ [x00; x01; x00; x01].

(** An answer record: a 2-byte name pointer, type, class [IN], a TTL of 60
    seconds, the length of the data, the data. *)
Definition answer (aType rdlength rdata : list byte) : list byte :=
  [xc0; x0c] ++ aType ++ [x00; x01] ++ [x00; x00; x00; x3c] ++ rdlength
    ++ rdata.

Definition addressA : list byte := [x5d; xb8; xd8; x22].

Definition addressAAAA : list byte :=
  [x26; x06; x28; x00; x02; x20; x00; x01;
   x02; x48; x18; x93; x25; xc8; x19; x46].

(** A response with one A record, [93.184.216.34]. *)
Definition responseA : PayloadMessage :=
  freshMessage
    (header [x81; x80] [x00; x01] [x00; x01] ++ question
       ++ answer [x00; x01] [x00; x04] addressA).

(** The same response with one AAAA record instead. *)
Definition responseAAAA : PayloadMessage :=
  freshMessage
    (header [x81; x80] [x00; x01] [x00; x01] ++ question
       ++ answer [x00; x1c] [x00; x10] addressAAAA).

(** A response with two A records, [93.184.216.34] and [93.184.216.35]. *)
Definition responseTwoA : PayloadMessage :=
  freshMessage
    (header [x81; x80] [x00; x01] [x00; x02] ++ question
       ++ answer [x00; x01] [x00; x04] addressA
       ++ answer [x00; x01] [x00; x04] [x5d; xb8; xd8; x23]).

(** The second address of [responseTwoA], [93.184.216.35]. *)
Definition addressA2 : list byte := [x5d; xb8; xd8; x23].

(** An answer record as [answer] builds it, with the TTL given. *)
Definition answerWithTTL (ttl aType rdlength rdata : list byte)
    : list byte :=
  [xc0; x0c] ++ aType ++ [x00; x01] ++ ttl ++ rdlength ++ rdata.

(** The address [2001:4:aabb:ccdd::1]. *)
Definition addressAAAA2 : list byte :=
  [x20; x01; x00; x04; xaa; xbb; xcc; xdd;
   x00; x00; x00; x00; x00; x00; x00; x01].

(** A response with an A record, [93.184.216.34], and then an AAAA record
    with a TTL of one day ([0x00015180] seconds). *)
Definition responseAThenAAAA : PayloadMessage :=
  freshMessage
    (header [x81; x80] [x00; x01] [x00; x02] ++ question
       ++ answer [x00; x01] [x00; x04] addressA
       ++ answerWithTTL [x00; x01; x51; x80] [x00; x1c] [x00; x10]
            addressAAAA2).

(** NXDOMAIN: response code 3, no answer. *)
Definition responseNXDOMAIN : PayloadMessage :=
  freshMessage (header [x81; x83] [x00; x01] [x00; x00] ++ question).

(** A response that announces 65535 answers besides its one question. *)
Definition responseManyAnswers : PayloadMessage :=
  freshMessage
    (header [x81; x80] [x00; x01] [xff; xff] ++ question
       ++ answer [x00; x01] [x00; x04] addressA).

(** A message of exactly the size of the header. *)
Definition headerOnly : PayloadMessage :=
  freshMessage (header [x81; x80] [x00; x01] [x00; x00]).

End Samples.

(** * Properties *)

(** ** Slices *)

Section SliceFacts.

Lemma u8_range (b : byte) : 0 <= u8 b < 256.
Proof.
  unfold u8. pose proof (Byte.to_N_bounded b) as H.
  apply N.lt_succ_r in H. lia.
Qed.

Lemma len_nonneg (data : list byte) : 0 <= len data.
Proof. unfold len. lia. Qed.

Lemma len_app (a b : list byte) : len (a ++ b) = len a + len b.
Proof. unfold len. rewrite length_app. lia. Qed.

Lemma index_Some_bounds (data : list byte) (i : Z) (b : byte) :
  index data i = Some b -> 0 <= i < len data.
Proof.
  unfold index, len. case_decide as Hi; [|discriminate].
  intros Hb%lookup_lt_Some. lia.
Qed.

Lemma index_in_bounds (data : list byte) (i : Z) :
  0 <= i < len data -> exists b, index data i = Some b.
Proof.
  unfold index, len. intros H. rewrite decide_True by lia.
  destruct (lookup_lt_is_Some_2 data (Z.to_nat i)) as [b Hb]; [lia|].
  eauto.
Qed.

Lemma index_out_of_bounds (data : list byte) (i : Z) :
  i < 0 \/ len data <= i -> index data i = None.
Proof.
  unfold index, len. intros Hi. case_decide as Hd; [|done].
  apply lookup_ge_None. lia.
Qed.

Lemma slice_in_bounds (data : list byte) (lo hi : Z) :
  0 <= lo -> lo <= hi -> hi <= len data ->
  slice data lo hi = Some (take (Z.to_nat (hi - lo)) (drop (Z.to_nat lo) data)).
Proof. intros. unfold slice. by rewrite decide_True. Qed.

Lemma slice_from_in_bounds (data : list byte) (lo : Z) :
  0 <= lo <= len data -> slice_from data lo = Some (drop (Z.to_nat lo) data).
Proof.
  intros H. unfold slice_from. rewrite slice_in_bounds by lia.
  f_equal. apply take_ge. rewrite length_drop. unfold len. lia.
Qed.

(** A slice that cuts [mid] out of [pre ++ mid ++ post]. *)
Lemma slice_middle (pre mid post : list byte) (lo hi : Z) :
  lo = len pre -> hi = len pre + len mid ->
  slice (pre ++ mid ++ post) lo hi = Some mid.
Proof.
  intros -> ->. rewrite slice_in_bounds.
  - f_equal. unfold len.
    rewrite Nat2Z.id, drop_app_length.
    replace (Z.to_nat _) with (length mid) by lia.
    by rewrite take_app_length.
  - apply len_nonneg.
  - pose proof (len_nonneg mid). lia.
  - rewrite !len_app. pose proof (len_nonneg post). lia.
Qed.

Lemma index_middle (pre post : list byte) (b : byte) (i : Z) :
  i = len pre -> index (pre ++ b :: post) i = Some b.
Proof.
  intros ->. unfold index, len. rewrite decide_True by lia.
  rewrite Nat2Z.id. by rewrite list_lookup_middle.
Qed.

End SliceFacts.

(** ** Hessian2 strings *)

Module HessianFacts.
Import Dubbo Dubbo.dubboHessian Samples.

Lemma is_len2_tag_true (tag : byte) :
  is_len2_tag tag = true <-> 0x30 <= u8 tag <= 0x33.
Proof.
  unfold is_len2_tag. rewrite andb_true_iff, !bool_decide_eq_true. tauto.
Qed.

Lemma is_len2_tag_false (tag : byte) :
  is_len2_tag tag = false <-> ~ (0x30 <= u8 tag <= 0x33).
Proof.
  rewrite <- is_len2_tag_true. destruct (is_len2_tag tag); split; congruence.
Qed.

(** Below 256 the sum with a multiple of 256 is the bitwise or. *)
Lemma shiftl8_add_lor (hi lo : Z) :
  0 <= hi -> 0 <= lo < 256 ->
  Z.shiftl hi 8 + lo = Z.lor (Z.shiftl hi 8) lo.
Proof.
  intros Hhi Hlo.
  assert (Hland : Z.land (Z.shiftl hi 8) lo = 0).
  { apply Z.bits_inj'. intros n Hn.
    rewrite Z.land_spec, Z.bits_0.
    destruct (Z.lt_ge_cases n 8) as [Hlt|Hge].
    - rewrite Z.shiftl_spec_low by lia. reflexivity.
    - rewrite andb_false_iff. right.
      destruct (Z.eq_dec lo 0) as [->|Hnz]; [apply Z.bits_0|].
      apply Z.bits_above_log2; [lia|].
      assert (Z.log2 lo < 8); [|lia].
      apply Z.log2_lt_pow2; lia. }
  rewrite Z.add_nocarry_lxor by exact Hland.
  apply Z.lxor_lor. exact Hland.
Qed.

(** The two-byte length of the source, [int(tag-0x30)<<8 + int(next)],
    is the [((t-0x30)<<8) | next_byte] of the format description. *)
Lemma len2_lor (tag next : byte) :
  0x30 <= u8 tag <= 0x33 ->
  len2 tag next = Z.lor (Z.shiftl (u8 tag - 0x30) 8) (u8 next).
Proof.
  intros Ht. unfold len2.
  rewrite Z.mod_small by (pose proof (u8_range tag); lia).
  apply shiftl8_add_lor; [lia | apply u8_range].
Qed.

Lemma len2_nonneg (tag next : byte) : 0 <= len2 tag next.
Proof.
  unfold len2. pose proof (u8_range next).
  assert (0 <= Z.shiftl ((u8 tag - 48) mod 256) 8); [|lia].
  apply Z.shiftl_nonneg. apply Z.mod_pos_bound. lia.
Qed.

(** Reading a value of declared length [n] at [p]: the bytes from [p],
    at most [n] of them, and the cursor moves past them but never past
    the end of [data]. *)
Lemma readValue_spec (data : list byte) (p n : Z) :
  0 <= p <= len data -> 0 <= n ->
  readValue data p n =
    Some (Z.min (p + n) (len data),
          take (Z.to_nat n) (drop (Z.to_nat p) data)).
Proof.
  intros Hp Hn. unfold readValue. case_decide as Hend.
  - rewrite slice_from_in_bounds by lia. simpl.
    rewrite Z.min_r by lia. do 2 f_equal.
    symmetry. apply take_ge. rewrite length_drop. unfold len in *. lia.
  - rewrite slice_in_bounds by lia. simpl.
    rewrite Z.min_l by lia. do 3 f_equal. lia.
Qed.

(** C3 as stated fails: a one-byte tag [5] announces five bytes where
    only two remain; the read would go beyond the end of [data], and the
    reader returns the two bytes that are there, not the empty string. *)
Lemma getStringValue_truncated_not_empty :
  index (x05 :: bs "ab") 0 = Some x05 /\
  0 + 1 + u8 x05 > len (x05 :: bs "ab") /\
  getStringValue (x05 :: bs "ab") 0 = Some (3, bs "ab").
Proof. repeat split. Qed.

(** C3 (amended): for every [data] and every [offset >= 0],
    [getStringValue] reads the tag byte [t] at [offset].  When [t] is in
    [[0x30,0x33]] the declared length is [((t-0x30)<<8) | next_byte] and
    the payload starts after the two tag bytes; otherwise the declared
    length is [t] and the payload starts after the one tag byte.  The
    value returned is the payload clipped to the end of [data] (the
    bytes that remain, when fewer than declared), and the new offset is
    the end of the payload, at most [len data].  The empty string is
    returned when [offset] is at or past the end, or when the second tag
    byte is missing. *)
Theorem getStringValue_tag_semantics (data : list byte) (offset : Z)
    (Hoff : 0 <= offset) :
  (len data <= offset ->
     getStringValue data offset = Some (len data, [])) /\
  (forall t, index data offset = Some t -> ~ (0x30 <= u8 t <= 0x33) ->
     getStringValue data offset =
       Some (Z.min (offset + 1 + u8 t) (len data),
             take (Z.to_nat (u8 t)) (drop (Z.to_nat (offset + 1)) data))) /\
  (forall t, index data offset = Some t -> 0x30 <= u8 t <= 0x33 ->
     offset + 1 = len data ->
     getStringValue data offset = Some (len data, [])) /\
  (forall t next, index data offset = Some t -> 0x30 <= u8 t <= 0x33 ->
     index data (offset + 1) = Some next ->
     let n := Z.lor (Z.shiftl (u8 t - 0x30) 8) (u8 next) in
     getStringValue data offset =
       Some (Z.min (offset + 2 + n) (len data),
             take (Z.to_nat n) (drop (Z.to_nat (offset + 2)) data))).
Proof.
  repeat split.
  - intros Hle. unfold getStringValue. by rewrite decide_True by lia.
  - intros t Ht Hrange. pose proof (index_Some_bounds _ _ _ Ht) as Hb.
    unfold getStringValue. rewrite decide_False by lia.
    rewrite Ht. simpl.
    apply is_len2_tag_false in Hrange. rewrite Hrange.
    apply readValue_spec; [lia | apply u8_range].
  - intros t Ht Hrange Hlast. pose proof (index_Some_bounds _ _ _ Ht) as Hb.
    unfold getStringValue. rewrite decide_False by lia.
    rewrite Ht. simpl.
    apply is_len2_tag_true in Hrange. rewrite Hrange.
    by rewrite decide_True.
  - intros t next Ht Hrange Hnext n.
    pose proof (index_Some_bounds _ _ _ Ht) as Hb.
    pose proof (index_Some_bounds _ _ _ Hnext) as Hb'.
    unfold getStringValue. rewrite decide_False by lia.
    rewrite Ht. simpl.
    pose proof Hrange as Htag. apply is_len2_tag_true in Htag. rewrite Htag.
    rewrite decide_False by lia. rewrite Hnext. simpl.
    subst n. rewrite <- len2_lor by exact Hrange.
    apply readValue_spec; [lia | apply len2_nonneg].
Qed.

(** The amended C3 at [data = 0x31 0x02 "abc"], [offset = 0]: the declared
    length is [(1 << 8) | 2 = 258], the three bytes that are there are
    returned. *)
Lemma getStringValue_tag_semantics_witness :
  0 <= 0 /\
  getStringValue (x31 :: x02 :: bs "abc") 0 = Some (5, bs "abc").
Proof.
  split; [lia|].
  destruct (getStringValue_tag_semantics (x31 :: x02 :: bs "abc") 0
              (Z.le_refl 0)) as (_ & _ & _ & H).
  apply (H x31 x02);
    [reflexivity | vm_compute; split; discriminate | reflexivity].
Defined.

(** A negative offset makes the reader index out of range. *)
Lemma getStringValue_negative_offset (data : list byte) (offset : Z) :
  offset < 0 -> getStringValue data offset = None.
Proof.
  intros Hneg. unfold getStringValue.
  rewrite decide_False by (pose proof (len_nonneg data); lia).
  rewrite (index_out_of_bounds data offset) by lia. reflexivity.
Qed.

End HessianFacts.

(** ** Loops *)

Section LoopFacts.
Context {S R : Type} (body : Z -> S -> option (flow S R)).

Lemma for_range_nil (lo hi : Z) (s : S) :
  hi <= lo -> for_range lo hi body s = Some (Continue s).
Proof.
  intros H. unfold for_range.
  replace (Z.to_nat (hi - lo)) with O by lia. reflexivity.
Qed.

Lemma for_range_step (lo hi : Z) (s : S) :
  lo < hi ->
  for_range lo hi body s =
    match body lo s with
    | Some (Continue s') => for_range (lo + 1) hi body s'
    | r => r
    end.
Proof.
  intros H. unfold for_range.
  replace (Z.to_nat (hi - lo)) with (Datatypes.S (Z.to_nat (hi - (lo + 1))))
    by lia.
  simpl. destruct (body lo s) as [[s'|r]|]; reflexivity.
Qed.

Lemma iterate_app (n m : nat) (i : Z) (s : S) :
  iterate body (n + m) i s =
    match iterate body n i s with
    | Some (Continue s') => iterate body m (i + Z.of_nat n) s'
    | r => r
    end.
Proof.
  revert i s. induction n as [|n IH]; intros i s; simpl.
  - f_equal. lia.
  - destruct (body i s) as [[s'|r]|]; [|reflexivity..].
    rewrite IH. destruct (iterate body n (i + 1) s') as [[s''|r]|];
      [|reflexivity..].
    f_equal. lia.
Qed.

(** A loop over [[lo, hi)] is the loop over [[lo, mid)] followed, when
    that one runs to its end, by the loop over [[mid, hi)]. *)
Lemma for_range_split (lo mid hi : Z) (s : S) :
  lo <= mid <= hi ->
  for_range lo hi body s =
    match for_range lo mid body s with
    | Some (Continue s') => for_range mid hi body s'
    | r => r
    end.
Proof.
  intros H. unfold for_range.
  replace (Z.to_nat (hi - lo))
    with (Z.to_nat (mid - lo) + Z.to_nat (hi - mid))%nat by lia.
  rewrite iterate_app.
  replace (lo + Z.of_nat (Z.to_nat (mid - lo))) with mid by lia.
  reflexivity.
Qed.

Lemma iterate_skip (n : nat) (i : Z) (s : S) :
  (forall j, i <= j < i + Z.of_nat n -> body j s = Some (Continue s)) ->
  iterate body n i s = Some (Continue s).
Proof.
  revert i. induction n as [|n IH]; intros i H; simpl; [reflexivity|].
  rewrite H by lia. apply IH. intros j Hj. apply H. lia.
Qed.

(** Iterations that leave the state alone can be skipped. *)
Lemma for_range_skip (lo hi : Z) (s : S) :
  (forall j, lo <= j < hi -> body j s = Some (Continue s)) ->
  for_range lo hi body s = Some (Continue s).
Proof.
  intros H. unfold for_range. apply iterate_skip.
  intros j Hj. apply H. lia.
Qed.

(** A loop that is left early is left by one of its iterations, run in
    a state that satisfies every invariant of the loop. *)
Lemma iterate_Exit_inv (I : Z -> S -> Prop) (n : nat) (i : Z) (s : S)
    (r : R) :
  I i s ->
  (forall j s0 s1, i <= j -> I j s0 -> body j s0 = Some (Continue s1) ->
                   I (j + 1) s1) ->
  iterate body n i s = Some (Exit r) ->
  exists j s', i <= j < i + Z.of_nat n /\ I j s' /\
               body j s' = Some (Exit r).
Proof.
  revert i s. induction n as [|n IH]; intros i s Hinit Hstep; simpl;
    [discriminate|].
  destruct (body i s) as [[s1|r1]|] eqn:Hb; [| |discriminate].
  - intros Hrest.
    destruct (IH (i + 1) s1) as (j & s' & Hj & HI & Hex); [| |exact Hrest|].
    + apply (Hstep i s s1); [lia | exact Hinit | exact Hb].
    + intros j s0 s2 Hj. apply Hstep. lia.
    + exists j, s'. split; [lia|]. split; assumption.
  - intros [= ->]. exists i, s. split; [lia|]. split; assumption.
Qed.

Lemma for_range_Exit_inv (I : Z -> S -> Prop) (lo hi : Z) (s : S) (r : R) :
  I lo s ->
  (forall j s0 s1, lo <= j -> I j s0 -> body j s0 = Some (Continue s1) ->
                   I (j + 1) s1) ->
  for_range lo hi body s = Some (Exit r) ->
  exists j s', lo <= j < hi /\ I j s' /\ body j s' = Some (Exit r).
Proof.
  intros Hinit Hstep Hrun. unfold for_range in Hrun.
  destruct (iterate_Exit_inv I _ _ _ _ Hinit Hstep Hrun)
    as (j & s' & Hj & HI & Hex).
  exists j, s'. split; [lia|]. split; assumption.
Qed.

End LoopFacts.

(** ** Indexing into concatenations *)

Section IndexFacts.

Lemma index_app_in (a b : list byte) (i : Z) :
  0 <= i < len a -> index (a ++ b) i = index a i.
Proof.
  unfold index, len. intros H. rewrite !decide_True by lia.
  apply lookup_app_l. lia.
Qed.

Lemma index_app_at (a b : list byte) (i : Z) :
  len a <= i -> index (a ++ b) i = index b (i - len a).
Proof.
  unfold index, len. intros H. rewrite !decide_True by lia.
  rewrite lookup_app_r by lia. f_equal. lia.
Qed.

Lemma index_head (b : byte) (l : list byte) (i : Z) :
  i = 0 -> index (b :: l) i = Some b.
Proof. intros ->. reflexivity. Qed.

Lemma index_cons_at (b : byte) (l : list byte) (i : Z) :
  0 < i -> index (b :: l) i = index l (i - 1).
Proof.
  unfold index. intros H. rewrite !decide_True by lia.
  replace (Z.to_nat i) with (Datatypes.S (Z.to_nat (i - 1))) by lia.
  reflexivity.
Qed.

Lemma index_elem_of (l : list byte) (i : Z) (b : byte) :
  index l i = Some b -> b ∈ l.
Proof.
  unfold index. case_decide as Hi; [|discriminate].
  apply list_elem_of_lookup_2.
Qed.

(** Inside a segment free of [x], every index holds a byte other than
    [x]. *)
Lemma index_segment_ne (l : list byte) (x : byte) (i : Z) :
  x ∉ l -> 0 <= i < len l -> exists b, index l i = Some b /\ b <> x.
Proof.
  intros Hx Hi. destruct (index_in_bounds l i Hi) as [b Hb].
  exists b. split; [exact Hb|].
  intros ->. apply Hx. eapply index_elem_of, Hb.
Qed.

Lemma index_drop (l : list byte) (n i : Z) :
  0 <= n -> 0 <= i -> index (drop (Z.to_nat n) l) i = index l (n + i).
Proof.
  intros Hn Hi. unfold index. rewrite !decide_True by lia.
  rewrite lookup_drop. f_equal. lia.
Qed.

(** The part of [data] selected by a successful slice, in place. *)
Lemma slice_Some_split (data m : list byte) (lo hi : Z) :
  slice data lo hi = Some m ->
  0 <= lo /\ lo <= hi /\ hi <= len data /\ len m = hi - lo /\
  data = take (Z.to_nat lo) data ++ m ++ drop (Z.to_nat hi) data.
Proof.
  unfold slice. case_decide as Hb; [|discriminate]. intros [= <-].
  destruct Hb as (H0 & H1 & H2). unfold len in *.
  repeat split; try assumption.
  - rewrite length_take, length_drop. lia.
  - rewrite <- (take_drop (Z.to_nat lo) data) at 1. f_equal.
    rewrite <- (take_drop (Z.to_nat (hi - lo)) (drop (Z.to_nat lo) data))
      at 1.
    f_equal. rewrite drop_drop. f_equal. lia.
Qed.

Lemma slice_app (data x y : list byte) (a b c : Z) :
  slice data a b = Some x -> slice data b c = Some y ->
  slice data a c = Some (x ++ y).
Proof.
  unfold slice. case_decide as Hab; [|discriminate]. intros [= <-].
  case_decide as Hbc; [|discriminate]. intros [= <-].
  rewrite decide_True by lia. f_equal.
  replace (Z.to_nat b) with (Z.to_nat a + Z.to_nat (b - a))%nat by lia.
  rewrite <- drop_drop, take_take_drop. f_equal. lia.
Qed.

Lemma slice_index (data : list byte) (i : Z) (b : byte) :
  index data i = Some b -> slice data i (i + 1) = Some [b].
Proof.
  intros Hi. pose proof (index_Some_bounds _ _ _ Hi) as Hb.
  rewrite slice_in_bounds by lia.
  unfold index in Hi. rewrite decide_True in Hi by lia.
  rewrite (drop_S _ _ _ Hi).
  replace (Z.to_nat (i + 1 - i)) with 1%nat by lia. reflexivity.
Qed.

End IndexFacts.

(** ** Serializer selection *)

Module SerializerFacts.
Import Dubbo.

(** C7: [GetSerializer] is a total function of the serialization id: it
    is the Hessian2 reader for [0x02] (the three functions of
    [dubboHessian]), the Fastjson reader for [0x06] (the three functions of
    [dubboFastJson]), and for every other byte the unsupported reader,
    whose [eatString] returns [0], whose [getStringValue] returns [(0, "")]
    and whose [getStringValueByKey] returns [""], for every input and
    without panicking. *)
Theorem GetSerializer_total :
  GetSerializer x02
  = {| eatString := dubboHessian.eatString;
       getStringValue := dubboHessian.getStringValue;
       getStringValueByKey := dubboHessian.getStringValueByKey |} /\
  GetSerializer x06
  = {| eatString := dubboFastJson.eatString;
       getStringValue := dubboFastJson.getStringValue;
       getStringValueByKey := dubboFastJson.getStringValueByKey |} /\
  (forall serialID, serialID <> x02 -> serialID <> x06 ->
     GetSerializer serialID
     = {| eatString := dubboUnsupport.eatString;
          getStringValue := dubboUnsupport.getStringValue;
          getStringValueByKey := dubboUnsupport.getStringValueByKey |} /\
     GetSerializer serialID = serialUnsupport) /\
  (forall (serialID : byte) (data : list byte) (offset : Z)
          (key : list byte),
     serialID <> x02 -> serialID <> x06 ->
     eatString (GetSerializer serialID) data offset = Some 0 /\
     getStringValue (GetSerializer serialID) data offset = Some (0, []) /\
     getStringValueByKey (GetSerializer serialID) data offset key
       = Some []) /\
  (forall (data : list byte) (offset : Z) (key : list byte),
     eatString serialUnsupport data offset = Some 0 /\
     getStringValue serialUnsupport data offset = Some (0, []) /\
     getStringValueByKey serialUnsupport data offset key = Some []).
Proof.
  assert (Hother : forall serialID, serialID <> x02 -> serialID <> x06 ->
            GetSerializer serialID = serialUnsupport).
  { intros serialID H2 H6. unfold GetSerializer.
    rewrite decide_False by exact H2. rewrite decide_False by exact H6.
    reflexivity. }
  split; [reflexivity|]. split; [reflexivity|]. split; [|split].
  - intros serialID H2 H6. rewrite (Hother serialID H2 H6).
    split; reflexivity.
  - intros serialID data offset key H2 H6. rewrite (Hother serialID H2 H6).
    repeat split.
  - intros data offset key. repeat split.
Qed.

(** C7 at the unknown id [0x0b]: every reader operation returns the
    empty result. *)
Lemma GetSerializer_total_witness :
  eatString (GetSerializer x0b) [x01; x02] 7 = Some 0 /\
  getStringValue (GetSerializer x0b) [x01; x02] 7 = Some (0, []) /\
  getStringValueByKey (GetSerializer x0b) [x01; x02] 7 [x6b] = Some [].
Proof.
  destruct GetSerializer_total as (_ & _ & _ & Hother & _).
  apply (Hother x0b); discriminate.
Defined.

End SerializerFacts.

(** ** Fastjson strings *)

Module FastjsonFacts.
Import Dubbo Dubbo.dubboFastJson FastjsonFields Samples.

(** *** [eatString] against [getStringValue] *)

Lemma valueStep_eatStep (data : list byte) (offset i : Z) (u : unit)
    (r : flow unit (Z * list byte)) :
  valueStep data offset i u = Some r ->
  eatStep data i u = Some (offsetOnly r).
Proof.
  unfold valueStep, eatStep. destruct (index data i) as [b|]; simpl;
    [|discriminate].
  case_decide as Hnl.
  - destruct (slice data (offset + 1) (i - 1)) as [s|]; simpl;
      [|discriminate].
    by intros [= <-].
  - by intros [= <-].
Qed.

Lemma iterate_valueStep_eatStep (data : list byte) (offset : Z) (n : nat)
    (i : Z) (u : unit) (r : flow unit (Z * list byte)) :
  iterate (valueStep data offset) n i u = Some r ->
  iterate (eatStep data) n i u = Some (offsetOnly r).
Proof.
  revert i u. induction n as [|n IH]; intros i u; simpl.
  - by intros [= <-].
  - destruct (valueStep data offset i u) as [[u'|[m s]]|] eqn:Hg;
      [| |discriminate].
    + rewrite (valueStep_eatStep _ _ _ _ _ Hg). simpl. apply IH.
    + rewrite (valueStep_eatStep _ _ _ _ _ Hg). simpl. by intros [= <-].
Qed.

(** X10: whenever the Fastjson [getStringValue] returns, [eatString]
    returns the same offset. *)
Lemma getStringValue_eatString (data : list byte) (offset n : Z)
    (s : list byte) :
  getStringValue data offset = Some (n, s) ->
  eatString data offset = Some n.
Proof.
  unfold getStringValue, eatString. case_decide as Hend.
  - by intros [= <- _].
  - unfold for_range.
    destruct (iterate (valueStep data offset) _ _ _) as [r|] eqn:Hrun;
      simpl; [|discriminate].
    rewrite (iterate_valueStep_eatStep _ _ _ _ _ _ Hrun). simpl.
    destruct r as [u|[m s']]; simpl; by intros [= <- _].
Qed.

(** C9 fails on the code at [data = "x\n"], [offset = 0]: the newline
    directly follows the byte at [offset], [eatString] returns [2], and
    [getStringValue] panics on the slice [data[1:0]], so it returns no
    offset at all. *)
Theorem eatString_returns_where_getStringValue_panics :
  index (bs "x" ++ nl) 1 = Some JsonNextLine /\
  slice (bs "x" ++ nl) (0 + 1) (1 - 1) = None /\
  eatString (bs "x" ++ nl) 0 = Some 2 /\
  getStringValue (bs "x" ++ nl) 0 = None.
Proof. repeat split. Qed.

(** *** [getStringValueByKey] *)

(** C10 fails on the code at [data = a"b"], [from = 0], [key = "k"]:
    the closing quote is the last byte, [quoteLeft] is [1], and the scan
    reads [data[i+1]] at [i + 1 = 4 = len(data)]: index out of range. *)
Theorem getStringValueByKey_reads_past_end :
  len (bs "a" ++ q ++ bs "b" ++ q) = 4 /\
  for_range 0 3 (scanStep (bs "a" ++ q ++ bs "b" ++ q) (bs "k")) 0
    = Some (Continue 1) /\
  index (bs "a" ++ q ++ bs "b" ++ q) (3 + 1) = None /\
  scanStep (bs "a" ++ q ++ bs "b" ++ q) (bs "k") 3 1 = None /\
  getStringValueByKey (bs "a" ++ q ++ bs "b" ++ q) 0 (bs "k") = None.
Proof. repeat split. Qed.

Lemma len_cons (b : byte) (l : list byte) : len (b :: l) = 1 + len l.
Proof. unfold len. simpl length. lia. Qed.

Lemma field_app (key value rest : list byte) :
  field key value ++ rest =
    JsonQutoes :: key ++ JsonQutoes :: JsonColon :: JsonQutoes :: value
      ++ JsonQutoes :: rest.
Proof.
  unfold field. simpl. f_equal. rewrite <- app_assoc. simpl.
  do 4 f_equal. by rewrite <- app_assoc.
Qed.

Lemma line_app (kv : list byte * list byte) (rest : list byte) :
  line kv ++ rest =
    JsonQutoes :: kv.1 ++ JsonQutoes :: JsonColon :: JsonQutoes :: kv.2
      ++ JsonQutoes :: JsonNextLine :: rest.
Proof. unfold line. rewrite <- app_assoc. apply field_app. Qed.

Lemma len_field (key value : list byte) :
  len (field key value) = len key + len value + 5.
Proof.
  unfold field. rewrite len_cons, len_app, !len_cons, len_app, len_cons.
  unfold len. simpl. lia.
Qed.

Lemma len_line (kv : list byte * list byte) :
  len (line kv) = len kv.1 + len kv.2 + 6.
Proof. unfold line. rewrite len_app, len_field. unfold len. simpl. lia. Qed.

(** **** One iteration of the scan *)

Section ScanStep.
Variables data key : list byte.

Lemma scanStep_other (i s : Z) (b : byte) :
  index data i = Some b -> b <> JsonQutoes ->
  scanStep data key i s = Some (Continue s).
Proof.
  intros Hi Hb. unfold scanStep. rewrite Hi. simpl.
  destruct (decide (b = JsonQutoes)); [contradiction | reflexivity].
Qed.

Lemma scanStep_open (i : Z) :
  index data i = Some JsonQutoes ->
  scanStep data key i 0 = Some (Continue i).
Proof. intros Hi. unfold scanStep. rewrite Hi. reflexivity. Qed.

Lemma scanStep_close_plain (i s : Z) (b1 : byte) :
  index data i = Some JsonQutoes -> s <> 0 ->
  index data (i + 1) = Some b1 -> b1 <> JsonColon ->
  scanStep data key i s = Some (Continue 0).
Proof.
  intros Hi Hs H1 Hb1. unfold scanStep. rewrite Hi. simpl.
  rewrite decide_False by exact Hs. rewrite H1. simpl.
  rewrite (bool_decide_eq_false_2 (b1 = JsonColon)) by exact Hb1.
  reflexivity.
Qed.

Lemma scanStep_close_other_key (i s : Z) (k : list byte) :
  index data i = Some JsonQutoes -> s <> 0 ->
  index data (i + 1) = Some JsonColon ->
  index data (i + 2) = Some JsonQutoes ->
  slice data (s + 1) i = Some k -> k <> key ->
  scanStep data key i s = Some (Continue 0).
Proof.
  intros Hi Hs H1 H2 Hk Hne. unfold scanStep. rewrite Hi. simpl.
  rewrite decide_False by exact Hs. rewrite H1, H2. simpl.
  case_bool_decide as Hlen; simpl; [|reflexivity].
  rewrite Hk. simpl.
  rewrite (bool_decide_eq_false_2 (k = key)) by exact Hne.
  reflexivity.
Qed.

Lemma scanStep_hit (i s : Z) (v : list byte) :
  index data i = Some JsonQutoes -> s <> 0 ->
  index data (i + 1) = Some JsonColon ->
  index data (i + 2) = Some JsonQutoes ->
  i - s - 1 = len key ->
  slice data (s + 1) i = Some key ->
  getNextString data (len data) (i + 2) = Some v ->
  scanStep data key i s = Some (Exit v).
Proof.
  intros Hi Hs H1 H2 Hlen Hk Hv. unfold scanStep. rewrite Hi. simpl.
  rewrite decide_False by exact Hs. rewrite H1, H2. simpl.
  rewrite (bool_decide_eq_true_2 (i - s - 1 = len key)) by exact Hlen.
  simpl. rewrite Hk. simpl.
  rewrite (bool_decide_eq_true_2 (key = key)) by reflexivity.
  rewrite Hv. reflexivity.
Qed.

(** Bytes other than quotes leave the scan where it is. *)
Lemma scan_skip (lo hi s : Z) :
  (forall j, lo <= j < hi ->
     exists b, index data j = Some b /\ b <> JsonQutoes) ->
  for_range lo hi (scanStep data key) s = Some (Continue s).
Proof.
  intros H. apply for_range_skip. intros j Hj.
  destruct (H j Hj) as (b & Hb & Hne).
  by apply (scanStep_other j s b).
Qed.

(** The closing quote of a string that starts at [offset]. *)
Lemma getNextString_found (offset e : Z) (v : list byte) :
  offset < e < len data ->
  (forall j, offset + 1 <= j < e ->
     exists b, index data j = Some b /\ b <> JsonQutoes) ->
  index data e = Some JsonQutoes ->
  slice data (offset + 1) e = Some v ->
  getNextString data (len data) offset = Some v.
Proof.
  intros He Hskip Hq Hv. unfold getNextString.
  rewrite decide_False by lia.
  rewrite (for_range_split _ (offset + 1) e (len data)) by lia.
  rewrite for_range_skip.
  - rewrite for_range_step by lia. rewrite Hq. simpl.
    rewrite Hv. reflexivity.
  - intros j Hj. destruct (Hskip j Hj) as (b & Hb & Hne).
    rewrite Hb. simpl.
    destruct (decide (b = JsonQutoes)); [contradiction | reflexivity].
Qed.

End ScanStep.

(** **** Where the bytes of a field are *)

Ltac index_at :=
  repeat first
    [ rewrite index_head by lia
    | rewrite index_cons_at by lia
    | rewrite index_app_at by lia
    | rewrite index_app_in by lia ].

Section Layout.
Variables pre k v rest : list byte.

Local Abbreviation data :=
  (pre ++ JsonQutoes :: k ++ JsonQutoes :: JsonColon :: JsonQutoes :: v
     ++ JsonQutoes :: rest).
Local Abbreviation p := (len pre).
Local Abbreviation c := (len pre + 1 + len k).
Local Abbreviation e := (len pre + 1 + len k + 3 + len v).

Lemma layout_len : len data = e + 1 + len rest.
Proof.
  rewrite len_app, len_cons, len_app, !len_cons, len_app, len_cons. lia.
Qed.

Lemma layout_open : index data p = Some JsonQutoes.
Proof. by index_at. Qed.

Lemma layout_key (j : Z) :
  JsonQutoes ∉ k -> p + 1 <= j < c ->
  exists b, index data j = Some b /\ b <> JsonQutoes.
Proof.
  intros Hk Hj. destruct (index_segment_ne k JsonQutoes (j - len pre - 1) Hk)
    as (b & Hb & Hne); [lia|].
  exists b. split; [|exact Hne]. index_at. rewrite <- Hb. f_equal; lia.
Qed.

Lemma layout_close : index data c = Some JsonQutoes.
Proof.
  pose proof (len_nonneg k). by index_at.
Qed.

Lemma layout_colon : index data (c + 1) = Some JsonColon.
Proof.
  pose proof (len_nonneg k). by index_at.
Qed.

Lemma layout_value_open : index data (c + 2) = Some JsonQutoes.
Proof.
  pose proof (len_nonneg k). by index_at.
Qed.

Lemma layout_value (j : Z) :
  JsonQutoes ∉ v -> c + 3 <= j < e ->
  exists b, index data j = Some b /\ b <> JsonQutoes.
Proof.
  intros Hv Hj. pose proof (len_nonneg k).
  destruct (index_segment_ne v JsonQutoes (j - (len pre + 1 + len k) - 3) Hv)
    as (b & Hb & Hne); [lia|].
  exists b. split; [|exact Hne]. index_at. rewrite <- Hb. f_equal; lia.
Qed.

Lemma layout_value_close : index data e = Some JsonQutoes.
Proof.
  pose proof (len_nonneg k). pose proof (len_nonneg v).
  by index_at.
Qed.

Lemma layout_rest (i : Z) :
  0 <= i -> index data (e + 1 + i) = index rest i.
Proof.
  intros Hi. pose proof (len_nonneg k). pose proof (len_nonneg v).
  index_at. f_equal; lia.
Qed.

Lemma layout_slice_key : slice data (p + 1) c = Some k.
Proof.
  change (pre ++ JsonQutoes :: k ++ ?r)
    with (pre ++ [JsonQutoes] ++ k ++ r).
  rewrite (app_assoc pre).
  apply slice_middle; rewrite len_app; unfold len; simpl; lia.
Qed.

Lemma layout_slice_value : slice data (c + 3) e = Some v.
Proof.
  change (pre ++ JsonQutoes :: k ++ JsonQutoes :: JsonColon
            :: JsonQutoes :: v ++ ?r)
    with (pre ++ [JsonQutoes] ++ k ++ [JsonQutoes; JsonColon; JsonQutoes]
            ++ v ++ r).
  rewrite !(app_assoc _ _ (v ++ _)).
  apply slice_middle; rewrite !len_app; unfold len; simpl; lia.
Qed.

End Layout.

(** **** Scanning across fields *)

Section Scan.
Variable key : list byte.

(** From outside a string, the scan passes over a field with another
    key and is outside a string again after the closing quote of its
    value, provided the field does not start at index [0] and the byte
    after it is not a colon. *)
Lemma scan_other_field (pre k v rest : list byte) (b1 : byte) :
  0 < len pre -> k <> key -> JsonQutoes ∉ k -> JsonQutoes ∉ v ->
  b1 <> JsonColon ->
  for_range (len pre) (len pre + len k + len v + 5)
    (scanStep
       (pre ++ JsonQutoes :: k ++ JsonQutoes :: JsonColon :: JsonQutoes
          :: v ++ JsonQutoes :: b1 :: rest) key) 0
  = Some (Continue 0).
Proof.
  intros Hpre Hne Hk Hv Hb1.
  pose proof (len_nonneg k) as Hlk. pose proof (len_nonneg v) as Hlv.
  pose proof (layout_open pre k v (b1 :: rest)) as Hopen.
  pose proof (layout_key pre k v (b1 :: rest)) as Hkey.
  pose proof (layout_close pre k v (b1 :: rest)) as Hclose.
  pose proof (layout_colon pre k v (b1 :: rest)) as Hcolon.
  pose proof (layout_value_open pre k v (b1 :: rest)) as Hvopen.
  pose proof (layout_value pre k v (b1 :: rest)) as Hvalue.
  pose proof (layout_value_close pre k v (b1 :: rest)) as Hvclose.
  pose proof (layout_rest pre k v (b1 :: rest) 0 (Z.le_refl 0)) as Hrest.
  pose proof (layout_slice_key pre k v (b1 :: rest)) as Hskey.
  cbv zeta in *.
  set (data := pre ++ _) in *. set (p := len pre) in *.
  set (c := p + 1 + len k) in *. set (e := c + 3 + len v) in *.
  replace (p + len k + len v + 5) with (e + 1) by (subst e c; lia).
  rewrite for_range_step by (subst e c; lia).
  rewrite (scanStep_open _ _ _ Hopen).
  rewrite (for_range_split _ (p + 1) c) by (subst e c; lia).
  rewrite (scan_skip _ _ _ _ _ (fun j Hj => Hkey j Hk Hj)).
  rewrite for_range_step by (subst e; lia).
  rewrite (scanStep_close_other_key _ _ c p k) by (assumption || lia).
  rewrite for_range_step by (subst e; lia).
  rewrite (scanStep_other _ _ (c + 1) 0 JsonColon Hcolon) by discriminate.
  rewrite for_range_step by (subst e; lia).
  replace (c + 1 + 1) with (c + 2) by lia.
  rewrite (scanStep_open _ _ _ Hvopen).
  rewrite (for_range_split _ (c + 2 + 1) e) by (subst e; lia).
  replace (c + 2 + 1) with (c + 3) by lia.
  rewrite (scan_skip _ _ _ _ _ (fun j Hj => Hvalue j Hv Hj)).
  rewrite for_range_step by lia.
  rewrite (scanStep_close_plain _ _ e (c + 2) b1);
    [ | exact Hvclose | subst c; lia
      | replace (e + 1) with (e + 1 + 0) by lia; exact Hrest
      | exact Hb1 ].
  apply for_range_nil. lia.
Qed.

End Scan.

Section Find.
Variable key : list byte.

Lemma lines_cons (kv : list byte * list byte)
    (others : list (list byte * list byte)) :
  lines (kv :: others) = line kv ++ lines others.
Proof. reflexivity. Qed.

(** The scan passes over a line with another key. *)
Lemma scan_line (pre rest : list byte) (kv : list byte * list byte) :
  0 < len pre -> other_line key kv ->
  for_range (len pre) (len pre + len (line kv))
    (scanStep (pre ++ line kv ++ rest) key) 0
  = Some (Continue 0).
Proof.
  intros Hpre (Hne & Hk & Hv). rewrite len_line, line_app.
  destruct kv as [k v]; cbn [fst snd] in *.
  pose proof (len_nonneg k) as Hlk. pose proof (len_nonneg v) as Hlv.
  rewrite (for_range_split _ _ (len pre + len k + len v + 5)) by lia.
  rewrite (scan_other_field key pre k v rest JsonNextLine)
    by (assumption || discriminate).
  rewrite for_range_step by lia.
  rewrite (scanStep_other _ _ _ 0 JsonNextLine); [| |discriminate].
  - apply for_range_nil. lia.
  - pose proof (layout_rest pre k v (JsonNextLine :: rest) 0 (Z.le_refl 0))
      as Hrest.
    cbv zeta in Hrest.
    replace (len pre + len k + len v + 5)
      with (len pre + 1 + len k + 3 + len v + 1 + 0) by lia.
    exact Hrest.
Qed.

(** The scan passes over a run of lines with other keys. *)
Lemma scan_lines (others : list (list byte * list byte)) :
  forall pre rest : list byte,
  0 < len pre -> Forall (other_line key) others ->
  for_range (len pre) (len pre + len (lines others))
    (scanStep (pre ++ lines others ++ rest) key) 0
  = Some (Continue 0).
Proof.
  induction others as [|kv others IH]; intros pre rest Hpre Hall.
  - apply for_range_nil. unfold lines, len. simpl. lia.
  - inversion Hall as [|kv' others' Hkv Hall']; subst kv' others'.
    rewrite lines_cons, len_app.
    pose proof (len_nonneg (line kv)) as Hl1.
    pose proof (len_nonneg (lines others)) as Hl2.
    rewrite (for_range_split _ _ (len pre + len (line kv))) by lia.
    rewrite <- (app_assoc (line kv)).
    rewrite (scan_line pre (lines others ++ rest) kv Hpre Hkv).
    rewrite (app_assoc pre (line kv)).
    replace (len pre + len (line kv)) with (len (pre ++ line kv))
      by apply len_app.
    replace (len pre + (len (line kv) + len (lines others)))
      with (len (pre ++ line kv) + len (lines others))
      by (rewrite len_app; lia).
    apply IH; [rewrite len_app; lia | exact Hall'].
Qed.

(** From outside a string, the scan returns the value of the field
    with the key it looks for. *)
Lemma scan_field_hit (pre value post : list byte) :
  0 < len pre -> JsonQutoes ∉ key -> JsonQutoes ∉ value ->
  for_range (len pre) (len (pre ++ field key value ++ post))
    (scanStep (pre ++ field key value ++ post) key) 0
  = Some (Exit value).
Proof.
  intros Hpre Hk Hv. rewrite field_app.
  pose proof (len_nonneg key) as Hlk. pose proof (len_nonneg value) as Hlv.
  pose proof (len_nonneg post) as Hlp.
  pose proof (layout_len pre key value post) as Hlen.
  pose proof (layout_open pre key value post) as Hopen.
  pose proof (layout_key pre key value post) as Hkey.
  pose proof (layout_close pre key value post) as Hclose.
  pose proof (layout_colon pre key value post) as Hcolon.
  pose proof (layout_value_open pre key value post) as Hvopen.
  pose proof (layout_value pre key value post) as Hvalue.
  pose proof (layout_value_close pre key value post) as Hvclose.
  pose proof (layout_slice_key pre key value post) as Hskey.
  pose proof (layout_slice_value pre key value post) as Hsvalue.
  cbv zeta in *.
  set (data := pre ++ _) in *. set (p := len pre) in *.
  set (c := p + 1 + len key) in *. set (e := c + 3 + len value) in *.
  rewrite for_range_step by (subst e c; lia).
  rewrite (scanStep_open _ _ _ Hopen).
  rewrite (for_range_split _ (p + 1) c) by (subst e c; lia).
  rewrite (scan_skip _ _ _ _ _ (fun j Hj => Hkey j Hk Hj)).
  rewrite for_range_step by (subst e; lia).
  rewrite (scanStep_hit _ _ c p value);
    [ reflexivity | exact Hclose | subst p; lia | exact Hcolon
      | exact Hvopen | subst c; lia | exact Hskey | ].
  apply (getNextString_found data (c + 2) e).
  - subst e. lia.
  - intros j Hj. apply Hvalue; [exact Hv | lia].
  - exact Hvclose.
  - replace (c + 2 + 1) with (c + 3) by lia. exact Hsvalue.
Qed.

(** Bytes before the first field, none of them a quote. *)
Lemma scan_junk (junk rest : list byte) (from : Z) :
  0 <= from <= len junk -> JsonQutoes ∉ drop (Z.to_nat from) junk ->
  for_range from (len junk) (scanStep (junk ++ rest) key) 0
  = Some (Continue 0).
Proof.
  intros Hfrom Hq. apply scan_skip. intros j Hj.
  destruct (index_segment_ne _ JsonQutoes (j - from) Hq) as (b & Hb & Hne).
  { unfold len in *. rewrite length_drop. lia. }
  exists b. split; [|exact Hne].
  rewrite index_app_in by lia.
  rewrite index_drop in Hb by lia. rewrite <- Hb. f_equal. lia.
Qed.

Lemma getStringValueByKey_first_match
    (junk value post : list byte)
    (others : list (list byte * list byte)) (from : Z) :
  0 <= from <= len junk -> 0 < len junk ->
  JsonQutoes ∉ drop (Z.to_nat from) junk ->
  Forall (other_line key) others ->
  JsonQutoes ∉ key -> JsonQutoes ∉ value ->
  getStringValueByKey
    (junk ++ lines others ++ field key value ++ post) from key
  = Some value.
Proof.
  intros Hfrom Hjunk Hq Hothers Hk Hv. unfold getStringValueByKey.
  set (data := junk ++ _).
  pose proof (len_nonneg (lines others)) as Hll.
  pose proof (len_nonneg (field key value ++ post)) as Hlf.
  assert (Hlen : len data
                 = len junk + len (lines others)
                   + len (field key value ++ post)).
  { subst data. rewrite !len_app. lia. }
  rewrite (for_range_split _ from (len junk)) by lia.
  subst data.
  rewrite (scan_junk junk _ from Hfrom Hq).
  rewrite (for_range_split _ _ (len junk + len (lines others)))
    by (rewrite Hlen; lia).
  rewrite (scan_lines others junk _ Hjunk Hothers).
  rewrite (app_assoc junk (lines others)).
  replace (len junk + len (lines others))
    with (len (junk ++ lines others)) by apply len_app.
  rewrite scan_field_hit; [reflexivity | | exact Hk | exact Hv].
  rewrite len_app. lia.
Qed.

End Find.

(** **** What a returned value comes from *)

Section Sound.
Variables data key : list byte.

Lemma scanStep_Exit_inv (j s : Z) (v : list byte) :
  scanStep data key j s = Some (Exit v) ->
  index data j = Some JsonQutoes /\ s <> 0 /\
  index data (j + 1) = Some JsonColon /\
  index data (j + 2) = Some JsonQutoes /\
  j - s - 1 = len key /\
  slice data (s + 1) j = Some key /\
  getNextString data (len data) (j + 2) = Some v.
Proof.
  unfold scanStep, and_then.
  destruct (index data j) as [b|]; simpl; [|discriminate].
  destruct (decide (b = JsonQutoes)) as [->|]; [|discriminate].
  destruct (decide (s = 0)) as [|Hs]; [discriminate|].
  destruct (index data (j + 1)) as [b1|]; simpl; [|discriminate].
  destruct (bool_decide_reflect (b1 = JsonColon)) as [->|]; simpl;
    [|discriminate].
  destruct (index data (j + 2)) as [b2|]; simpl; [|discriminate].
  destruct (bool_decide_reflect (b2 = JsonQutoes)) as [->|]; simpl;
    [|discriminate].
  destruct (bool_decide_reflect (j - s - 1 = len key)) as [Hlen|]; simpl;
    [|discriminate].
  destruct (slice data (s + 1) j) as [k|]; simpl; [|discriminate].
  destruct (bool_decide_reflect (k = key)) as [->|]; simpl;
    [|discriminate].
  destruct (getNextString data (len data) (j + 2)) as [v'|]; simpl;
    [|discriminate].
  intros [= ->]. repeat split; assumption || reflexivity.
Qed.

Lemma scanStep_Continue_inv (j s s1 : Z) :
  scanStep data key j s = Some (Continue s1) ->
  s1 = s \/ (s1 = j /\ index data j = Some JsonQutoes) \/ s1 = 0.
Proof.
  unfold scanStep, and_then.
  destruct (index data j) as [b|]; simpl; [|discriminate].
  destruct (decide (b = JsonQutoes)) as [->|].
  - destruct (decide (s = 0)) as [|Hs].
    + intros [= <-]. right. left. split; reflexivity.
    + intros H. right. right. revert H.
      destruct (index data (j + 1)) as [b1|]; simpl; [|discriminate].
      destruct (bool_decide (b1 = JsonColon)); simpl; [|congruence].
      destruct (index data (j + 2)) as [b2|]; simpl; [|discriminate].
      destruct (bool_decide (b2 = JsonQutoes)); simpl; [|congruence].
      destruct (bool_decide (j - s - 1 = len key)); simpl; [|congruence].
      destruct (slice data (s + 1) j) as [k|]; simpl; [|discriminate].
      destruct (bool_decide (k = key)); simpl; [|congruence].
      destruct (getNextString data (len data) (j + 2)); simpl;
        discriminate.
  - intros [= <-]. left. reflexivity.
Qed.

Lemma getNextString_inv (offset : Z) (v : list byte) :
  getNextString data (len data) offset = Some v -> v <> [] ->
  exists e, offset + 1 <= e < len data /\
            index data e = Some JsonQutoes /\
            slice data (offset + 1) e = Some v.
Proof.
  unfold getNextString. case_decide as Hend; [congruence|].
  destruct (for_range _ _ _ _) as [[u|v']|] eqn:Hrun; simpl;
    [congruence | | discriminate].
  intros [= ->] _.
  apply (for_range_Exit_inv _ (fun _ _ => True)) in Hrun;
    [|exact I|intros; exact I].
  destruct Hrun as (e & u & He & _ & Hbody).
  exists e. split; [exact He|].
  destruct (index data e) as [b|]; simpl in Hbody; [|discriminate].
  destruct (decide (b = JsonQutoes)) as [->|]; [|discriminate].
  destruct (slice data (offset + 1) e) as [x|]; simpl in Hbody;
    [|discriminate].
  split; congruence.
Qed.

(** A non-empty result is the value of a field with the given key
    that lies at or after [from]. *)
Lemma getStringValueByKey_sound (from : Z) (v : list byte) :
  getStringValueByKey data from key = Some v -> v <> [] ->
  exists pre post,
    data = pre ++ field key v ++ post /\ from <= len pre.
Proof.
  unfold getStringValueByKey.
  destruct (for_range _ _ _ _) as [[s|v']|] eqn:Hrun; simpl;
    [congruence | | discriminate].
  intros [= ->] Hv.
  apply (for_range_Exit_inv _
           (fun j s => s = 0 \/
                       (from <= s < j /\ index data s = Some JsonQutoes)))
    in Hrun.
  - destruct Hrun as (j & s & Hj & HI & Hstep).
    apply scanStep_Exit_inv in Hstep
      as (Hq & Hs & Hcolon & Hvopen & Hlen & Hkey & Hnext).
    destruct HI as [->|[Hsj Hopen]]; [congruence|].
    destruct (getNextString_inv _ _ Hnext Hv) as (e & He & Hclose & Hval).
    assert (Hfield : slice data s (e + 1) = Some (field key v)).
    { unfold field.
      apply (slice_app data [JsonQutoes] _ s (s + 1));
        [by apply slice_index|].
      apply (slice_app data key _ (s + 1) j); [exact Hkey|].
      apply (slice_app data [JsonQutoes] _ j (j + 1));
        [by apply slice_index|].
      apply (slice_app data [JsonColon] _ (j + 1) (j + 2)).
      { replace (j + 2) with (j + 1 + 1) by lia. by apply slice_index. }
      apply (slice_app data [JsonQutoes] _ (j + 2) (j + 2 + 1)).
      { by apply slice_index. }
      apply (slice_app data v _ (j + 2 + 1) e); [exact Hval|].
      by apply slice_index. }
    apply slice_Some_split in Hfield as (H0 & _ & _ & _ & Hdata).
    exists (take (Z.to_nat s) data), (drop (Z.to_nat (e + 1)) data).
    split; [exact Hdata|].
    unfold len. rewrite length_take.
    pose proof (index_Some_bounds _ _ _ Hopen) as Hb. unfold len in Hb.
    lia.
  - left. reflexivity.
  - intros j s0 s1 Hj HI Hstep.
    apply scanStep_Continue_inv in Hstep as [->|[[-> Hq]| ->]].
    + destruct HI as [->|[Hs Hq]]; [by left|]. right. split; [lia|done].
    + right. split; [lia|done].
    + by left.
Qed.

End Sound.

(** Why the field must not start at index [0]: [quoteLeft = 0] also
    means that no opening quote has been seen, so an opening quote at index
    [0] is not remembered and the field is missed. *)
Lemma getStringValueByKey_field_at_index_0 :
  getStringValueByKey (field (bs "k") (bs "v") ++ nl) 0 (bs "k")
  = Some [] /\
  getStringValueByKey (bs "x" ++ field (bs "k") (bs "v") ++ nl) 0 (bs "k")
  = Some (bs "v").
Proof. split; reflexivity. Qed.

(** **** The claim *)

(** C6 as stated fails: behind one stray quote the field ["k":"v"] is
    in [data] at index [4 >= from = 0], and the scan for ["k"] returns the
    empty string: it pairs the stray quote with the opening quote of the
    key. *)
Lemma getStringValueByKey_stray_quote_hides_field :
  field (bs "k") (bs "v") = q ++ bs "k" ++ q ++ bs ":" ++ q ++ bs "v" ++ q /\
  len (bs "a" ++ q ++ bs "b ") = 4 /\
  getStringValueByKey
    ((bs "a" ++ q ++ bs "b ") ++ field (bs "k") (bs "v") ++ nl) 0 (bs "k")
  = Some [].
Proof. repeat split. Qed.

(** C6 (amended): let [data] be some bytes [junk], then lines
    ["ki":"vi"\n] with keys other than [key], then the field
    ["key":"value"], then anything; let [from] lie in [junk], with
    [junk] not empty and without a quote at or after [from], and let no
    key and no value contain a quote.  Then
    [getStringValueByKey(data, from, key)] returns [value].  Conversely,
    whenever it returns a string that is not empty, that string is the
    value of a field ["key":"value"] that lies in [data] at or after
    [from]. *)
Theorem getStringValueByKey_line_fields (data key : list byte) (from : Z) :
  (forall (junk value post : list byte)
          (others : list (list byte * list byte)),
     data = junk ++ lines others ++ field key value ++ post ->
     0 <= from <= len junk -> 0 < len junk ->
     JsonQutoes ∉ drop (Z.to_nat from) junk ->
     Forall (other_line key) others ->
     JsonQutoes ∉ key -> JsonQutoes ∉ value ->
     getStringValueByKey data from key = Some value) /\
  (forall value : list byte,
     getStringValueByKey data from key = Some value -> value <> [] ->
     exists pre post,
       data = pre ++ field key value ++ post /\ from <= len pre).
Proof.
  split.
  - intros junk value post others -> Hfrom Hjunk Hq Hothers Hk Hv.
    by apply getStringValueByKey_first_match.
  - intros value. apply getStringValueByKey_sound.
Qed.

(** The amended C6 on [x"a":"b"\n"k":"v"\n], from [0], for the key
    ["k"]: the value is ["v"]. *)
Lemma getStringValueByKey_line_fields_witness :
  getStringValueByKey
    (bs "x" ++ lines [(bs "a", bs "b")] ++ field (bs "k") (bs "v") ++ nl)
    0 (bs "k")
  = Some (bs "v").
Proof.
  apply (proj1 (getStringValueByKey_line_fields
                  (bs "x" ++ lines [(bs "a", bs "b")]
                     ++ field (bs "k") (bs "v") ++ nl) (bs "k") 0)
           (bs "x") (bs "v") nl [(bs "a", bs "b")]).
  - reflexivity.
  - unfold len. simpl. lia.
  - unfold len. simpl. lia.
  - simpl. intros H. apply list_elem_of_singleton in H. discriminate.
  - constructor; [|constructor].
    unfold other_line. simpl. split; [|split].
    + discriminate.
    + intros H. apply list_elem_of_singleton in H. discriminate.
    + intros H. apply list_elem_of_singleton in H. discriminate.
  - intros H. apply list_elem_of_singleton in H. discriminate.
  - intros H. apply list_elem_of_singleton in H. discriminate.
Defined.

End FastjsonFacts.

(** ** Payload message buffer *)

Module PayloadFacts.
Import Protocol.

Lemma slice_None (data : list byte) (lo hi : Z) :
  lo < 0 \/ hi < lo \/ len data < hi -> slice data lo hi = None.
Proof. intros H. unfold slice. rewrite decide_False by lia. reflexivity. Qed.

Lemma slice_Some_bounds (data bytes : list byte) (lo hi : Z) :
  slice data lo hi = Some bytes ->
  0 <= lo /\ lo <= hi /\ hi <= len data /\ len bytes = hi - lo.
Proof.
  intros H. apply slice_Some_split in H as (H0 & H1 & H2 & H3 & _).
  repeat split; assumption.
Qed.

Lemma readUInt_incomplete (width : Z) (m : PayloadMessage) (offset : Z) :
  offset < 0 \/ len (Data m) < offset + width ->
  readUInt width m offset = (true, 0).
Proof.
  intros H. unfold readUInt. rewrite slice_None by lia. reflexivity.
Qed.

(** A read that reports success has all its bytes inside the buffer. *)
Lemma readUInt_complete (width : Z) (m : PayloadMessage) (offset v : Z) :
  readUInt width m offset = (false, v) ->
  0 <= offset /\ offset + width <= len (Data m) /\
  exists bytes, slice (Data m) offset (offset + width) = Some bytes /\
                v = bigEndian bytes.
Proof.
  unfold readUInt.
  destruct (slice (Data m) offset (offset + width)) as [bytes|] eqn:Hs;
    [|discriminate].
  intros [= <-].
  pose proof (slice_Some_bounds _ _ _ _ Hs) as (H0 & H1 & H2 & _).
  repeat split; try lia. by exists bytes.
Qed.

Lemma ReadBytes_incomplete (m : PayloadMessage) (offset length : Z) :
  offset < 0 \/ length < 0 \/ len (Data m) < offset + length ->
  ReadBytes m offset length = (offset, None).
Proof.
  intros H. unfold ReadBytes. rewrite slice_None by lia. reflexivity.
Qed.

Lemma findByte_Some (delimiter : byte) (bytes : list byte) (i at_ : Z) :
  findByte delimiter bytes i = Some at_ ->
  i <= at_ /\ index bytes (at_ - i) = Some delimiter.
Proof.
  revert i. induction bytes as [|b rest IH]; intros i; simpl; [discriminate|].
  case_decide as Hb.
  - intros [= <-]. split; [lia|]. subst b. by apply index_head; lia.
  - intros H. apply IH in H as [Hle Hidx]. split; [lia|].
    rewrite index_cons_at by lia. rewrite <- Hidx. f_equal. lia.
Qed.

Lemma read_until_incomplete (m : PayloadMessage) (offset : Z)
    (delimiter : byte) :
  (forall j, offset <= j -> index (Data m) j <> Some delimiter) ->
  read_until m offset delimiter = (true, (offset, [])).
Proof.
  intros Hnone. unfold read_until.
  destruct (slice_from (Data m) offset) as [tail|] eqn:Htail; [|reflexivity].
  destruct (findByte delimiter tail offset) as [at_|] eqn:Hfind;
    [|reflexivity].
  exfalso. apply findByte_Some in Hfind as [Hle Hidx].
  pose proof Htail as Hb. unfold slice_from in Hb.
  apply slice_Some_bounds in Hb as (H0 & H1 & _).
  rewrite slice_from_in_bounds in Htail by lia. injection Htail as <-.
  rewrite index_drop in Hidx by lia.
  apply (Hnone (offset + (at_ - offset))); [lia | exact Hidx].
Qed.

(** C8: for every payload message buffer and every cursor-based read, a
    read whose bytes extend past the end of the buffer does not report
    success: the integer reads and the delimited and length-prefixed reads
    report [incomplete = true], [ReadBytes] returns nil bytes, and the
    offset handed back is the one given.  The readers take the message
    read-only, so its cursor [Offset] is as it was. *)
Theorem reads_past_end_incomplete (m : PayloadMessage) (offset : Z) :
  (len (Data m) < offset + 1 -> (ReadUInt8 m offset).1 = true) /\
  (len (Data m) < offset + 2 -> (ReadUInt16 m offset).1 = true) /\
  (len (Data m) < offset + 4 -> (ReadUInt32 m offset).1 = true) /\
  (len (Data m) < offset + 8 -> (ReadUInt64 m offset).1 = true) /\
  (forall length, len (Data m) < offset + length ->
     ReadBytes m offset length = (offset, None)) /\
  (forall delimiter,
     (forall j, offset <= j -> index (Data m) j <> Some delimiter) ->
     read_until m offset delimiter = (true, (offset, []))) /\
  (forall prefix_width, len (Data m) < offset + prefix_width ->
     read_length_prefixed_string m offset prefix_width
     = (true, (offset, []))) /\
  (forall prefix_width length,
     readUInt prefix_width m offset = (false, length) ->
     len (Data m) < offset + prefix_width + length ->
     read_length_prefixed_string m offset prefix_width
     = (true, (offset, []))).
Proof.
  repeat split.
  - intros H. unfold ReadUInt8. by rewrite readUInt_incomplete by lia.
  - intros H. unfold ReadUInt16. by rewrite readUInt_incomplete by lia.
  - intros H. unfold ReadUInt32. by rewrite readUInt_incomplete by lia.
  - intros H. unfold ReadUInt64. by rewrite readUInt_incomplete by lia.
  - intros length H. apply ReadBytes_incomplete. lia.
  - intros delimiter H. by apply read_until_incomplete.
  - intros w H. unfold read_length_prefixed_string.
    by rewrite readUInt_incomplete by lia.
  - intros w n Hprefix H. unfold read_length_prefixed_string.
    rewrite Hprefix. by rewrite ReadBytes_incomplete by lia.
Qed.

(** C8 on the one-byte buffer [[0x01]]: a 16-bit read at [0] needs two
    bytes and is incomplete. *)
Lemma reads_past_end_incomplete_witness :
  len (Data (Samples.freshMessage [x01])) < 0 + 2 /\
  (ReadUInt16 (Samples.freshMessage [x01]) 0).1 = true.
Proof.
  assert (H : len (Data (Samples.freshMessage [x01])) < 0 + 2)
    by (vm_compute; reflexivity).
  split; [exact H|].
  exact (proj1 (proj2 (reads_past_end_incomplete
                         (Samples.freshMessage [x01]) 0)) H).
Defined.

(** The other direction: a read that reports success lies inside the
    buffer, and so does the offset it hands back. *)
Lemma reads_success_in_bounds (m : PayloadMessage) (offset : Z) :
  (forall width v, readUInt width m offset = (false, v) ->
     0 <= offset /\ offset + width <= len (Data m)) /\
  (forall length new_offset bytes,
     ReadBytes m offset length = (new_offset, Some bytes) ->
     0 <= offset /\ new_offset = offset + length /\
     new_offset <= len (Data m) /\ len bytes = length) /\
  (forall delimiter new_offset bytes,
     read_until m offset delimiter = (false, (new_offset, bytes)) ->
     0 <= offset /\ offset < new_offset <= len (Data m) /\
     index (Data m) (new_offset - 1) = Some delimiter /\
     slice (Data m) offset (new_offset - 1) = Some bytes) /\
  (forall prefix_width new_offset bytes,
     read_length_prefixed_string m offset prefix_width
     = (false, (new_offset, bytes)) ->
     0 <= offset /\ offset + prefix_width <= new_offset <= len (Data m) /\
     slice (Data m) (offset + prefix_width) new_offset = Some bytes).
Proof.
  split; [|split; [|split]].
  - intros width v H. apply readUInt_complete in H as (H0 & H1 & _).
    by split.
  - intros length new_offset bytes. unfold ReadBytes.
    destruct (slice (Data m) offset (offset + length)) as [bs|] eqn:Hs;
      [|discriminate].
    intros [= <- <-].
    apply slice_Some_bounds in Hs as (H0 & H1 & H2 & H3).
    repeat split; lia.
  - intros delimiter new_offset bytes. unfold read_until.
    destruct (slice_from (Data m) offset) as [tail|] eqn:Htail;
      [|discriminate].
    destruct (findByte delimiter tail offset) as [at_|] eqn:Hfind;
      [|discriminate].
    destruct (slice (Data m) offset at_) as [bs|] eqn:Hs; [|discriminate].
    intros [= <- <-].
    apply findByte_Some in Hfind as [Hle Hidx].
    pose proof Htail as Hb. unfold slice_from in Hb.
    apply slice_Some_bounds in Hb as (H0 & H1 & _).
    rewrite slice_from_in_bounds in Htail by lia. injection Htail as <-.
    rewrite index_drop in Hidx by lia.
    replace (offset + (at_ - offset)) with at_ in Hidx by lia.
    pose proof (index_Some_bounds _ _ _ Hidx) as Hat.
    replace (at_ + 1 - 1) with at_ by lia.
    repeat split; (lia || assumption).
  - intros w new_offset bytes. unfold read_length_prefixed_string.
    destruct (readUInt w m offset) as [[|] n] eqn:Hprefix; [discriminate|].
    apply readUInt_complete in Hprefix as (H0 & H1 & pre & Hpre & _).
    apply slice_Some_bounds in Hpre as (_ & Hw & _).
    unfold ReadBytes.
    destruct (slice (Data m) (offset + w) (offset + w + n)) as [bs|] eqn:Hs;
      [|discriminate].
    intros [= <- <-].
    pose proof (slice_Some_bounds _ _ _ _ Hs) as (_ & H2 & H3 & _).
    repeat split; (lia || assumption).
Qed.

(** No integer read reports success beyond the bounds of the buffer. *)
Lemma ReadUInt16_complete (m : PayloadMessage) (offset v : Z) :
  ReadUInt16 m offset = (false, v) ->
  exists b0 b1,
    slice (Data m) offset (offset + 2) = Some [b0; b1] /\
    v = u8 b0 * 256 + u8 b1.
Proof.
  intros H. apply readUInt_complete in H as (H0 & H1 & bytes & Hs & ->).
  pose proof (slice_Some_bounds _ _ _ _ Hs) as (_ & _ & _ & Hlen).
  destruct bytes as [|b0 [|b1 [|b2 bytes]]]; unfold len in Hlen;
    simpl in Hlen; try lia.
  exists b0, b1. split; [exact Hs|]. unfold bigEndian. simpl. lia.
Qed.

End PayloadFacts.

(** ** Loops that only break *)

Section BreakLoopFacts.
Context {S : Type} (body : Z -> S -> flow S S).

(** A property of the loop state that every iteration keeps, whether it
    goes on or breaks, holds when the loop ends. *)
Lemma iterate_break_invariant (P : S -> Prop) (n : nat) (i : Z) (s : S) :
  (forall j s0 s1, P s0 -> body j s0 = Continue s1 \/ body j s0 = Exit s1 ->
                   P s1) ->
  P s -> P (iterate_break body n i s).
Proof.
  intros Hstep. revert i s. induction n as [|n IH]; intros i s Hs; simpl;
    [exact Hs|].
  destruct (body i s) as [s1|s1] eqn:Hb.
  - apply IH. apply (Hstep i s s1 Hs). by left.
  - apply (Hstep i s s1 Hs). by right.
Qed.

Lemma for_range_break_invariant (P : S -> Prop) (lo hi : Z) (s : S) :
  (forall j s0 s1, P s0 -> body j s0 = Continue s1 \/ body j s0 = Exit s1 ->
                   P s1) ->
  P s -> P (for_range_break lo hi body s).
Proof.
  intros Hstep Hs. unfold for_range_break. by apply iterate_break_invariant.
Qed.

Lemma for_range_break_step (lo hi : Z) (s : S) :
  lo < hi ->
  for_range_break lo hi body s =
    match body lo s with
    | Continue s' => for_range_break (lo + 1) hi body s'
    | Exit s' => s'
    end.
Proof.
  intros H. unfold for_range_break.
  replace (Z.to_nat (hi - lo)) with (Datatypes.S (Z.to_nat (hi - (lo + 1))))
    by lia.
  reflexivity.
Qed.

End BreakLoopFacts.

(** ** DNS responses *)

Module DnsFacts.
Import Protocol Dns Samples PayloadFacts.

(** *** Fast fail *)

(** C5 as stated fails: a message of exactly the 12 bytes of the header
    is rejected by the fast-fail predicate, whatever the maximum size. *)
Lemma fastfailDnsResponse_rejects_header_only :
  len (Data headerOnly) = DNSHeaderSize /\
  forall env : Env, @fastfailDnsResponse env headerOnly = true.
Proof. split; [reflexivity|]. intros env. reflexivity. Qed.

Section WithEnv.
Context {env : Env}.

(** C5 (amended): the fast-fail predicate lets a message through exactly
    when its length is greater than the header size and at most the maximum
    message size: the interval is open at the header size, and a message
    that is only a header is rejected. *)
Theorem fastfailDnsResponse_accepts_iff (message : PayloadMessage) :
  fastfailDnsResponse message = false <->
  DNSHeaderSize < len (Data message) /\ len (Data message) <= MaxMessageSize.
Proof.
  unfold fastfailDnsResponse.
  rewrite orb_false_iff, !bool_decide_eq_false. lia.
Qed.

(** *** The header guard *)

(** The parser rejects on the response bit, the opcode, the response code,
    the question count, and the 16-bit sum of the four record counts; a
    rejected message is handed back as it was. *)
Lemma parseDnsResponse_guard (message : PayloadMessage) :
  Z.land (Z.shiftr (headerWord message 2) 15) 0x1 = 0 \/
  Z.land (Z.shiftr (headerWord message 2) 11) 0xf > 2 \/
  Z.land (headerWord message 2) 0xf > 5 \/
  headerWord message 4 = 0 \/
  wrappedCount message > MaxNumRR ->
  parseDnsResponse message = (false, true, message).
Proof.
  intros H. unfold parseDnsResponse.
  fold (headerWord message 2) (headerWord message 4) (headerWord message 6)
    (headerWord message 8) (headerWord message 10).
  fold (wrappedCount message).
  destruct H as [H|[H|[H|[H|H]]]];
    rewrite (bool_decide_eq_true_2 _ H), ?orb_true_r; reflexivity.
Qed.

(** With the guard passed, the verdict is the question reader's. *)
Lemma parseDnsResponse_past_guard (message : PayloadMessage) :
  Z.land (Z.shiftr (headerWord message 2) 15) 0x1 <> 0 ->
  Z.land (Z.shiftr (headerWord message 2) 11) 0xf <= 2 ->
  Z.land (headerWord message 2) 0xf <= 5 ->
  headerWord message 4 <> 0 ->
  wrappedCount message <= MaxNumRR ->
  (parseDnsResponse message).1
  = (bool_decide (is_Some (readQuery message (headerWord message 4)).2), true).
Proof.
  intros Hqr Hop Hrc Hqd Hrr. unfold parseDnsResponse.
  fold (headerWord message 2) (headerWord message 4) (headerWord message 6)
    (headerWord message 8) (headerWord message 10).
  fold (wrappedCount message).
  rewrite (bool_decide_eq_false_2 _ Hqr).
  rewrite (bool_decide_eq_false_2 (_ > 2)) by lia.
  rewrite (bool_decide_eq_false_2 (_ > 5)) by lia.
  rewrite (bool_decide_eq_false_2 _ Hqd).
  rewrite (bool_decide_eq_false_2 (_ > MaxNumRR)) by lia.
  simpl.
  destruct (readQuery message (headerWord message 4)) as [offset' [domain|]];
    simpl.
  - destruct (readIpV4Answer _ _) as [m1 ip]. reflexivity.
  - reflexivity.
Qed.

(** *** Attributes of an accepted response *)

Lemma readUInt_cases (width : Z) (m : PayloadMessage) (offset : Z) :
  readUInt width m offset = (true, 0) \/
  exists v, readUInt width m offset = (false, v).
Proof.
  unfold readUInt. destruct (slice _ _ _); [right|left]; eauto.
Qed.

Lemma readUInt_in_bounds (width : Z) (m : PayloadMessage) (offset : Z) :
  0 <= offset -> 0 <= width -> offset + width <= len (Data m) ->
  exists v, readUInt width m offset = (false, v).
Proof.
  intros H0 Hw H1. unfold readUInt. rewrite slice_in_bounds by lia. eauto.
Qed.

Lemma readIpV4Answer_attributeMap (message : PayloadMessage)
    (answerCount : Z) :
  attributeMap (readIpV4Answer message answerCount).1 = attributeMap message.
Proof.
  unfold readIpV4Answer. destruct (answerLoop message answerCount).
  case_decide; reflexivity.
Qed.

(** C2: for every response the parser accepts, [dns.id] is the 16-bit
    word read at the cursor (the header ID), [dns.rcode] is the low 4 bits
    of the flags word read two bytes further, and the parser sets
    [is_error] to [true] when that rcode is greater than [0] and leaves it
    untouched otherwise: on a message that had no [is_error] yet,
    [is_error] is [true] if and only if the rcode is greater than [0].
    Both words are really in the buffer: the flags word is the big-endian
    value of the two bytes at cursor + 2, and, the cursor not being
    negative, the ID is the big-endian value of the two bytes at the
    cursor. *)
Theorem parseDnsResponse_attributes (message message' : PayloadMessage) :
  parseDnsResponse message = (true, true, message') ->
  attributeMap message' !! constlabels.DnsId
    = Some (IntValue (ReadUInt16 message (Offset message)).2) /\
  attributeMap message' !! constlabels.DnsRcode
    = Some (IntValue (Z.land (headerWord message 2) 0xf)) /\
  attributeMap message' !! constlabels.IsError
    = (if bool_decide (Z.land (headerWord message 2) 0xf > 0)
       then Some (BoolValue true)
       else attributeMap message !! constlabels.IsError) /\
  (attributeMap message !! constlabels.IsError = None ->
   (attributeMap message' !! constlabels.IsError = Some (BoolValue true)
    <-> Z.land (headerWord message 2) 0xf > 0)) /\
  (exists f0 f1,
     slice (Data message) (Offset message + 2) (Offset message + 2 + 2)
       = Some [f0; f1] /\
     headerWord message 2 = u8 f0 * 256 + u8 f1) /\
  (0 <= Offset message ->
   exists i0 i1,
     slice (Data message) (Offset message) (Offset message + 2)
       = Some [i0; i1] /\
     (ReadUInt16 message (Offset message)).2 = u8 i0 * 256 + u8 i1).
Proof.
  unfold parseDnsResponse.
  fold (headerWord message 2) (headerWord message 4) (headerWord message 6)
    (headerWord message 8) (headerWord message 10).
  set (id := (ReadUInt16 message (Offset message)).2).
  set (rcode := Z.land (headerWord message 2) 15).
  destruct (_ || _) eqn:Hguard; [discriminate|].
  apply orb_false_iff in Hguard as [Hguard _].
  apply orb_false_iff in Hguard as [Hguard Hqd].
  apply orb_false_iff in Hguard as [Hguard _].
  apply orb_false_iff in Hguard as [Hqr _].
  apply bool_decide_eq_false in Hqr, Hqd.
  destruct (readQuery message (headerWord message 4)) as [offset' [domain|]];
    [|discriminate].
  destruct (readIpV4Answer _ _) as [m1 ip] eqn:Hanswer.
  intros [= <-].
  assert (Hm1 : attributeMap m1 = attributeMap message).
  { change m1 with (m1, ip).1. rewrite <- Hanswer.
    by rewrite readIpV4Answer_attributeMap. }
  assert (Hlookups :
    forall m : PayloadMessage,
      attributeMap m !! constlabels.IsError
        = attributeMap message !! constlabels.IsError ->
      let m' := AddIntAttribute constlabels.DnsRcode rcode
                  (AddIntAttribute constlabels.DnsId id m) in
      let m'' := if bool_decide (rcode > 0)
                 then AddIntAttribute constlabels.ErrorType ProtocolError
                        (AddBoolAttribute constlabels.IsError true m')
                 else m' in
      attributeMap m'' !! constlabels.DnsId = Some (IntValue id) /\
      attributeMap m'' !! constlabels.DnsRcode = Some (IntValue rcode) /\
      attributeMap m'' !! constlabels.IsError
        = (if bool_decide (rcode > 0) then Some (BoolValue true)
           else attributeMap message !! constlabels.IsError)).
  { intros m Hm. simpl. destruct (bool_decide (rcode > 0)); simpl;
      repeat split; by simplify_map_eq. }
  match goal with
  | |- attributeMap (if _ then _ (_ _ _ (_ _ _ (_ _ _ ?m))) else _) !! _ = _
       /\ _ =>
      destruct (Hlookups m) as (H1 & H2 & H3)
  end.
  { destruct (bool_decide (0 < String.length ip)%nat); simpl;
      rewrite ?lookup_insert_ne by done; by rewrite Hm1. }
  split; [exact H1|]. split; [exact H2|]. split; [exact H3|].
  split.
  { intros Hfresh. rewrite H3, Hfresh.
    case_bool_decide; split; (done || lia || discriminate). }
  clear H1 H2 H3 Hlookups. subst id rcode.
  (* the flags word was read in full, or the response bit would be 0 *)
  destruct (readUInt_cases 2 message (Offset message + 2)) as [Hf|[flags Hf]].
  { exfalso. apply Hqr. unfold headerWord, ReadUInt16. rewrite Hf.
    reflexivity. }
  (* so was the question count, or it would be 0 *)
  destruct (readUInt_cases 2 message (Offset message + 4)) as [Hq|[qd Hq]].
  { exfalso. apply Hqd. unfold headerWord, ReadUInt16. rewrite Hq.
    reflexivity. }
  apply readUInt_complete in Hq as (_ & Hlen & _).
  split.
  - destruct (ReadUInt16_complete _ _ _ Hf) as (f0 & f1 & Hsf & Hflags).
    exists f0, f1. split; [exact Hsf|].
    unfold headerWord, ReadUInt16. rewrite Hf. exact Hflags.
  - intros Hoff.
    destruct (readUInt_in_bounds 2 message (Offset message)) as [idv Hi];
      [lia..|].
    destruct (ReadUInt16_complete _ _ _ Hi) as (i0 & i1 & Hsi & Hidv).
    exists i0, i1. split; [exact Hsi|].
    unfold ReadUInt16. rewrite Hi. exact Hidv.
Qed.

(** *** The answer section *)

(** The string [readIpV4Answer] returns is the comma-joined list of the
    addresses its loop ends with. *)
Lemma readIpV4Answer_joins (message : PayloadMessage) (answerCount : Z) :
  (readIpV4Answer message answerCount).2
  = String.concat "," (answerLoop message answerCount).2.
Proof.
  unfold readIpV4Answer.
  destruct (answerLoop message answerCount) as [offset ips].
  case_decide as Hips; [|reflexivity].
  destruct ips; [reflexivity | discriminate].
Qed.

(** A record of another type than A is skipped: the cursor moves to the
    next record and no address is added. *)
Lemma answerStep_skips_other_types (message : PayloadMessage) (i o : Z)
    (ips : list string) (aType rdlength : Z) :
  ReadUInt16 message (o + 2) = (false, aType) -> aType <> TypeA ->
  ReadUInt16 message (o + 2 + 8) = (false, rdlength) ->
  answerStep message i (o, ips) = Continue (o + 2 + 8 + 2 + rdlength, ips).
Proof.
  intros Ht Hne Hl. unfold answerStep. rewrite Ht, Hl.
  by rewrite decide_False.
Qed.

(** A record of type A whose data lies inside the buffer adds the address
    made of its data. *)
Lemma answerStep_collects_A (message : PayloadMessage) (i o : Z)
    (ips : list string) (rdlength : Z) (rdata : list byte) :
  ReadUInt16 message (o + 2) = (false, TypeA) ->
  ReadUInt16 message (o + 2 + 8) = (false, rdlength) ->
  (ReadBytes message (o + 2 + 8 + 2) rdlength).2 = Some rdata ->
  exists o', answerStep message i (o, ips)
             = Continue (o', ips ++ [IP_String rdata]).
Proof.
  intros Ht Hl Hd. unfold answerStep. rewrite Ht, Hl.
  rewrite decide_True by reflexivity.
  destruct (ReadBytes message (o + 2 + 8 + 2) rdlength) as [o1 [ip|]];
    simpl in Hd; [|discriminate].
  injection Hd as ->. eauto.
Qed.

(** What one iteration does to the list of addresses: nothing, or it adds
    the data of a record of type A. *)
Lemma answerStep_addresses (message : PayloadMessage) (i o o1 : Z)
    (ips ips1 : list string) :
  answerStep message i (o, ips) = Continue (o1, ips1) \/
  answerStep message i (o, ips) = Exit (o1, ips1) ->
  ips1 = ips \/
  exists rdlength rdata,
    ReadUInt16 message (o + 2) = (false, TypeA) /\
    ReadUInt16 message (o + 2 + 8) = (false, rdlength) /\
    (ReadBytes message (o + 2 + 8 + 2) rdlength).2 = Some rdata /\
    ips1 = ips ++ [IP_String rdata].
Proof.
  unfold answerStep.
  destruct (ReadUInt16 message (o + 2)) as [[|] aType] eqn:Ht.
  { intros [[=]|[= _ <-]]. by left. }
  destruct (ReadUInt16 message (o + 2 + 8)) as [[|] rdlength] eqn:Hl.
  { intros [[=]|[= _ <-]]. by left. }
  case_decide as HA.
  - destruct (ReadBytes message (o + 2 + 8 + 2) rdlength) as [o2 [ip|]]
      eqn:Hd.
    + intros [[= _ <-]|[=]]. right. exists rdlength, ip. subst aType.
      rewrite Hd. repeat split.
    + intros [[=]|[= _ <-]]. by left.
  - intros [[= _ <-]|[=]]. by left.
Qed.

(** After a record of type A the cursor has moved by the length of the
    data twice: once to the offset [ReadBytes] returns, once more by
    [offset += int(length)]. *)
Lemma answerStep_A_cursor (message : PayloadMessage) (i o : Z)
    (ips : list string) (rdlength : Z) (rdata : list byte) :
  ReadUInt16 message (o + 2) = (false, TypeA) ->
  ReadUInt16 message (o + 2 + 8) = (false, rdlength) ->
  ReadBytes message (o + 2 + 8 + 2) rdlength
    = (o + 2 + 8 + 2 + rdlength, Some rdata) ->
  answerStep message i (o, ips)
  = Continue (o + 2 + 8 + 2 + rdlength + rdlength, ips ++ [IP_String rdata]).
Proof.
  intros Ht Hl Hd. unfold answerStep. rewrite Ht, Hl.
  rewrite decide_True by reflexivity. rewrite Hd. reflexivity.
Qed.

End WithEnv.

(** *** Sample responses *)

(** C2 on the NXDOMAIN sample (id [0x1234], flags [0x8183]): accepted,
    with [dns.id = 0x1234], [dns.rcode = 3] and [is_error = true]. *)
Lemma parseDnsResponse_attributes_witness :
  (@parseDnsResponse sampleEnv responseNXDOMAIN).1 = (true, true) /\
  attributeMap (@parseDnsResponse sampleEnv responseNXDOMAIN).2
    !! constlabels.DnsId = Some (IntValue 0x1234) /\
  attributeMap (@parseDnsResponse sampleEnv responseNXDOMAIN).2
    !! constlabels.DnsRcode = Some (IntValue 3) /\
  attributeMap (@parseDnsResponse sampleEnv responseNXDOMAIN).2
    !! constlabels.IsError = Some (BoolValue true).
Proof.
  assert (Hacc : (@parseDnsResponse sampleEnv responseNXDOMAIN).1
                 = (true, true)) by (vm_compute; reflexivity).
  split; [exact Hacc|].
  destruct (@parseDnsResponse_attributes sampleEnv responseNXDOMAIN
              (@parseDnsResponse sampleEnv responseNXDOMAIN).2)
    as (Hid & Hrcode & Herr & _).
  { rewrite <- Hacc. symmetry. apply surjective_pairing. }
  split; [exact Hid|]. split; [exact Hrcode|]. exact Herr.
Defined.

(** C1 fails on the code at the sample that announces one question and
    65535 answers.  The four record counts add up to 65536, more than
    [MaxNumRR = 25]; the parser adds them as [uint16], the sum wraps to [0],
    the guard lets the message through, and the parser accepts it and
    writes its attributes. *)
Theorem parseDnsResponse_accepts_wrapped_record_count :
  headerWord responseManyAnswers 4 + headerWord responseManyAnswers 6
    + headerWord responseManyAnswers 8 + headerWord responseManyAnswers 10
    = 65536 /\
  65536 > @MaxNumRR sampleEnv /\
  wrappedCount responseManyAnswers = 0 /\
  (@parseDnsResponse sampleEnv responseManyAnswers).1 = (true, true) /\
  attributeMap (@parseDnsResponse sampleEnv responseManyAnswers).2
    !! constlabels.DnsId = Some (IntValue 0x1234) /\
  attributeMap (@parseDnsResponse sampleEnv responseManyAnswers).2
    !! constlabels.DnsDomain = Some (StringValue "example.com").
Proof. repeat split; vm_compute; reflexivity. Qed.

(** The same message under any environment with [MaxNumRR >= 0]: the
    guard lets it through, and the verdict is the question reader's. *)
Lemma parseDnsResponse_wrapped_count_any_env (env : Env) :
  0 <= MaxNumRR ->
  (parseDnsResponse responseManyAnswers).1
  = (bool_decide (is_Some (readQuery responseManyAnswers 1).2), true).
Proof.
  intros Hmax.
  apply (parseDnsResponse_past_guard responseManyAnswers).
  - vm_compute. discriminate.
  - vm_compute. discriminate.
  - vm_compute. discriminate.
  - vm_compute. discriminate.
  - replace (wrappedCount responseManyAnswers) with 0
      by (vm_compute; reflexivity).
    exact Hmax.
Qed.

(** An AAAA record is not collected: the AAAA sample carries one answer
    record of type 28 with its 16 bytes of data inside the buffer; the
    answer reader returns the empty string for it, under every
    environment, and the parser accepts the response without a [dns.ip]
    attribute. *)
Lemma readIpV4Answer_skips_AAAA :
  ReadUInt16 (setOffset 29 responseAAAA) (29 + 2) = (false, TypeAAAA) /\
  ReadBytes (setOffset 29 responseAAAA) (29 + 2 + 8 + 2) 16
    = (57, Some addressAAAA) /\
  (forall env : Env,
     (@readIpV4Answer env (setOffset 29 responseAAAA) 1).2 = EmptyString) /\
  (@parseDnsResponse sampleEnv responseAAAA).1 = (true, true) /\
  attributeMap (@parseDnsResponse sampleEnv responseAAAA).2
    !! constlabels.DnsIp = None.
Proof.
  split; [reflexivity|]. split; [reflexivity|]. split.
  - intros env. rewrite readIpV4Answer_joins. unfold answerLoop.
    rewrite for_range_break_step by lia.
    rewrite (answerStep_skips_other_types _ 0 29 [] TypeAAAA 16);
      [reflexivity | reflexivity | discriminate | reflexivity].
  - split; vm_compute; reflexivity.
Qed.

(** The spec's scenario 4: the response with one A record gives
    [dns.domain = example.com], [dns.ip = 93.184.216.34], [dns.rcode = 0]. *)
Lemma parseDnsResponse_A_record :
  (@parseDnsResponse sampleEnv responseA).1 = (true, true) /\
  attributeMap (@parseDnsResponse sampleEnv responseA).2
    !! constlabels.DnsDomain = Some (StringValue "example.com") /\
  attributeMap (@parseDnsResponse sampleEnv responseA).2
    !! constlabels.DnsIp = Some (StringValue "93.184.216.34") /\
  attributeMap (@parseDnsResponse sampleEnv responseA).2
    !! constlabels.DnsRcode = Some (IntValue 0) /\
  attributeMap (@parseDnsResponse sampleEnv responseA).2
    !! constlabels.IsError = None.
Proof. repeat split; vm_compute; reflexivity. Qed.

(** C4 fails on the code, for records of type A already.

    On the response with two A records, [93.184.216.34] and
    [93.184.216.35], both laid out in full (type word [1], length [4],
    data inside the buffer, the second record starting at [45]), the first
    iteration of the answer reader leaves the cursor at [49]: [ReadBytes]
    hands back [45] and [offset += int(length)] adds the length once more.
    The second iteration then reads inside the second record; under every
    environment the reader collects the first address alone, and the
    parser writes [dns.ip = 93.184.216.34].

    On the response with an A record and then an AAAA record
    ([2001:4:aabb:ccdd::1], TTL [0x00015180]) the second iteration reads
    the upper half of the TTL as type word [1] and two bytes of the AAAA
    data as length [4], and the next four bytes of the AAAA data are
    appended as an IPv4 address: [dns.ip = 93.184.216.34,170.187.204.221]. *)
Theorem readIpV4Answer_misreads_after_A_record :
  (ReadUInt16 (setOffset 29 responseTwoA) (29 + 2) = (false, TypeA) /\
   ReadUInt16 (setOffset 29 responseTwoA) (29 + 2 + 8) = (false, 4) /\
   ReadBytes (setOffset 29 responseTwoA) (29 + 2 + 8 + 2) 4
     = (45, Some addressA) /\
   ReadUInt16 (setOffset 29 responseTwoA) (45 + 2) = (false, TypeA) /\
   ReadUInt16 (setOffset 29 responseTwoA) (45 + 2 + 8) = (false, 4) /\
   ReadBytes (setOffset 29 responseTwoA) (45 + 2 + 8 + 2) 4
     = (61, Some addressA2)) /\
  (forall env : Env,
     @answerStep env (setOffset 29 responseTwoA) 0 (29, [])
     = Continue (49, [@IP_String env addressA]) /\
     (@answerLoop env (setOffset 29 responseTwoA) 2).2
     = [@IP_String env addressA]) /\
  ((@parseDnsResponse sampleEnv responseTwoA).1 = (true, true) /\
   attributeMap (@parseDnsResponse sampleEnv responseTwoA).2
     !! constlabels.DnsIp = Some (StringValue "93.184.216.34")) /\
  (ReadUInt16 (setOffset 29 responseAThenAAAA) (45 + 2)
     = (false, TypeAAAA) /\
   ReadUInt16 (setOffset 29 responseAThenAAAA) (45 + 2 + 8) = (false, 16) /\
   ReadBytes (setOffset 29 responseAThenAAAA) (45 + 2 + 8 + 2) 16
     = (73, Some addressAAAA2) /\
   ReadUInt16 (setOffset 29 responseAThenAAAA) (49 + 2) = (false, TypeA) /\
   ReadUInt16 (setOffset 29 responseAThenAAAA) (49 + 2 + 8) = (false, 4) /\
   ReadBytes (setOffset 29 responseAThenAAAA) (49 + 2 + 8 + 2) 4
     = (65, Some [xaa; xbb; xcc; xdd])) /\
  ((@parseDnsResponse sampleEnv responseAThenAAAA).1 = (true, true) /\
   attributeMap (@parseDnsResponse sampleEnv responseAThenAAAA).2
     !! constlabels.DnsIp
   = Some (StringValue "93.184.216.34,170.187.204.221")).
Proof.
  split; [repeat split|]. split; [|split; [|split]].
  - intros env. split; vm_compute; reflexivity.
  - split; vm_compute; reflexivity.
  - repeat split.
  - split; vm_compute; reflexivity.
Qed.

End DnsFacts.

(** * Further properties *)

(** ** Search loops *)

Section SearchLoopFacts.
Context {R : Type} (body : Z -> unit -> option (flow unit R)).

(** How a loop without state ends: it ran through all its iterations, it
    was left by the first iteration that does not go on, or that iteration
    panicked. *)
Lemma iterate_search (n : nat) (i : Z) :
  match iterate body n i tt with
  | Some (Continue _) =>
      forall j, i <= j < i + Z.of_nat n -> body j tt = Some (Continue tt)
  | Some (Exit r) =>
      exists j, i <= j < i + Z.of_nat n /\ body j tt = Some (Exit r) /\
                forall k, i <= k < j -> body k tt = Some (Continue tt)
  | None =>
      exists j, i <= j < i + Z.of_nat n /\ body j tt = None /\
                forall k, i <= k < j -> body k tt = Some (Continue tt)
  end.
Proof.
  revert i. induction n as [|n IH]; intros i; simpl.
  - intros j Hj. lia.
  - destruct (body i tt) as [[[]|r]|] eqn:Hb.
    + specialize (IH (i + 1)).
      destruct (iterate body n (i + 1) tt) as [[[]|r]|].
      * intros j Hj. destruct (decide (j = i)) as [->|]; [exact Hb|].
        apply IH. lia.
      * destruct IH as (j & Hj & Hex & Hbefore). exists j.
        split; [lia|]. split; [exact Hex|]. intros k Hk.
        destruct (decide (k = i)) as [->|]; [exact Hb|]. apply Hbefore. lia.
      * destruct IH as (j & Hj & Hex & Hbefore). exists j.
        split; [lia|]. split; [exact Hex|]. intros k Hk.
        destruct (decide (k = i)) as [->|]; [exact Hb|]. apply Hbefore. lia.
    + exists i. split; [lia|]. split; [exact Hb|]. intros k Hk. lia.
    + exists i. split; [lia|]. split; [exact Hb|]. intros k Hk. lia.
Qed.

Lemma for_range_search (lo hi : Z) :
  match for_range lo hi body tt with
  | Some (Continue _) =>
      forall j, lo <= j < hi -> body j tt = Some (Continue tt)
  | Some (Exit r) =>
      exists j, lo <= j < hi /\ body j tt = Some (Exit r) /\
                forall k, lo <= k < j -> body k tt = Some (Continue tt)
  | None =>
      exists j, lo <= j < hi /\ body j tt = None /\
                forall k, lo <= k < j -> body k tt = Some (Continue tt)
  end.
Proof.
  unfold for_range. pose proof (iterate_search (Z.to_nat (hi - lo)) lo) as H.
  destruct (iterate body (Z.to_nat (hi - lo)) lo tt) as [[[]|r]|].
  - intros j Hj. apply H. lia.
  - destruct H as (j & Hj & Hrest). exists j. split; [lia | exact Hrest].
  - destruct H as (j & Hj & Hrest). exists j. split; [lia | exact Hrest].
Qed.

End SearchLoopFacts.

Section NoPanicFacts.
Context {S R : Type} (body : Z -> S -> option (flow S R)).

(** A loop none of whose iterations can panic does not panic. *)
Lemma iterate_is_Some (n : nat) (i : Z) (s : S) :
  (forall j s', i <= j < i + Z.of_nat n -> is_Some (body j s')) ->
  is_Some (iterate body n i s).
Proof.
  revert i s. induction n as [|n IH]; intros i s H; simpl; [eauto|].
  destruct (H i s) as [[s'|r] ->]; [lia| |eauto].
  apply IH. intros j s'' Hj. apply H. lia.
Qed.

Lemma for_range_is_Some (lo hi : Z) (s : S) :
  (forall j s', lo <= j < hi -> is_Some (body j s')) ->
  is_Some (for_range lo hi body s).
Proof.
  intros H. unfold for_range. apply iterate_is_Some.
  intros j s' Hj. apply H. lia.
Qed.

(** The same with an invariant of the loop state. *)
Lemma iterate_is_Some_inv (I : S -> Prop) (n : nat) (i : Z) (s : S) :
  I s ->
  (forall j s0, i <= j < i + Z.of_nat n -> I s0 ->
     exists r, body j s0 = Some r /\ forall s1, r = Continue s1 -> I s1) ->
  is_Some (iterate body n i s).
Proof.
  revert i s. induction n as [|n IH]; intros i s Hs H; simpl; [eauto|].
  destruct (H i s) as ([s'|r] & -> & Hnext); [lia | exact Hs | | eauto].
  apply IH; [by apply Hnext|]. intros j s0 Hj. apply H. lia.
Qed.

Lemma for_range_is_Some_inv (I : S -> Prop) (lo hi : Z) (s : S) :
  I s ->
  (forall j s0, lo <= j < hi -> I s0 ->
     exists r, body j s0 = Some r /\ forall s1, r = Continue s1 -> I s1) ->
  is_Some (for_range lo hi body s).
Proof.
  intros Hs H. unfold for_range. apply (iterate_is_Some_inv I); [exact Hs|].
  intros j s0 Hj. apply H. lia.
Qed.

End NoPanicFacts.

(** ** Hessian2 reader: offsets, bounds, keys *)

Module HessianMore.
Import Dubbo Dubbo.dubboHessian Samples HessianFacts.

Lemma len2_value (tag next : byte) :
  0x30 <= u8 tag <= 0x33 ->
  len2 tag next = (u8 tag - 0x30) * 256 + u8 next.
Proof.
  intros Ht. unfold len2.
  rewrite Z.mod_small by (pose proof (u8_range tag); lia).
  rewrite Z.shiftl_mul_pow2 by lia. reflexivity.
Qed.

Lemma take_min_length {A : Type} (l : list A) (n : nat) :
  take (n `min` length l) l = take n l.
Proof.
  destruct (decide (n <= length l)%nat) as [Hle|Hgt].
  - by rewrite Nat.min_l.
  - rewrite Nat.min_r by lia. rewrite !take_ge by lia. reflexivity.
Qed.

(** The three ways the two Hessian2 readers go at an offset that is not
    negative: offset at or past the end; a two-byte tag whose second byte is
    missing; a tag that announces [L] bytes from [p]. *)
Lemma hessian_cases (data : list byte) (offset : Z) :
  0 <= offset ->
  (len data <= offset /\
   eatString data offset = Some (len data) /\
   getStringValue data offset = Some (len data, [])) \/
  (offset + 1 = len data /\
   eatString data offset = Some (len data) /\
   getStringValue data offset = Some (len data, [])) \/
  (exists p L,
     offset < p /\ p <= offset + 2 /\ p <= len data /\ 0 <= L <= 1023 /\
     eatString data offset = Some (p + L) /\
     getStringValue data offset
     = Some (Z.min (p + L) (len data),
             take (Z.to_nat L) (drop (Z.to_nat p) data))).
Proof.
  intros Hoff. unfold eatString, getStringValue.
  destruct (decide (offset >= len data)) as [Hend|Hin].
  { left. repeat split. lia. }
  destruct (index_in_bounds data offset) as [tag Htag]; [lia|].
  rewrite Htag. simpl.
  destruct (is_len2_tag tag) eqn:Hrange.
  - apply is_len2_tag_true in Hrange.
    destruct (decide (offset + 1 = len data)) as [Hlast|Hmore].
    { right. left. repeat split. exact Hlast. }
    destruct (index_in_bounds data (offset + 1)) as [next Hnext]; [lia|].
    rewrite Hnext. simpl. right. right.
    exists (offset + 2), (len2 tag next).
    pose proof (u8_range next). pose proof (len2_value tag next Hrange).
    split; [lia|]. split; [lia|]. split; [lia|]. split; [lia|].
    split; [reflexivity|].
    apply readValue_spec; lia.
  - apply is_len2_tag_false in Hrange. right. right.
    exists (offset + 1), (u8 tag). pose proof (u8_range tag).
    split; [lia|]. split; [lia|]. split; [lia|]. split; [lia|].
    split; [reflexivity|].
    apply readValue_spec; lia.
Qed.

(** X1: at every offset that is not negative both Hessian2 readers return,
    and the offset [getStringValue] returns is the one [eatString] returns,
    clipped to the length of [data]: [eatString] alone can point past the
    end. *)
Theorem hessian_getStringValue_offset_is_eatString_clipped
    (data : list byte) (offset : Z) :
  0 <= offset ->
  exists e n s,
    eatString data offset = Some e /\
    getStringValue data offset = Some (n, s) /\
    n = Z.min e (len data).
Proof.
  intros Hoff.
  destruct (hessian_cases data offset Hoff)
    as [(Hend & He & Hg)|[(Hlast & He & Hg)|(p & L & _ & _ & _ & _ & He & Hg)]].
  - exists (len data), (len data), []. repeat split; try assumption. lia.
  - exists (len data), (len data), []. repeat split; try assumption. lia.
  - eexists _, _, _. split; [exact He|]. split; [exact Hg|]. reflexivity.
Qed.

(** X1 on [0x05 "ab"]: [eatString] returns [6], past the end; the offset
    of [getStringValue] is [3]. *)
Lemma hessian_getStringValue_offset_is_eatString_clipped_witness :
  0 <= 0 /\
  exists e n s,
    eatString (x05 :: bs "ab") 0 = Some e /\
    getStringValue (x05 :: bs "ab") 0 = Some (n, s) /\
    n = Z.min e (len (x05 :: bs "ab")).
Proof.
  split; [lia|].
  apply (hessian_getStringValue_offset_is_eatString_clipped
           (x05 :: bs "ab") 0).
  lia.
Defined.

(** X2: at every offset that is not negative [getStringValue] returns
    without panicking; the new offset is at most [len data] and, when the
    offset was inside [data], greater than it; the string has at most 1023
    bytes and is the part of [data] that ends at the new offset. *)
Theorem hessian_getStringValue_in_bounds (data : list byte) (offset : Z) :
  0 <= offset ->
  exists n s,
    getStringValue data offset = Some (n, s) /\
    n <= len data /\
    (offset < len data -> offset < n) /\
    len s <= 1023 /\
    slice data (n - len s) n = Some s.
Proof.
  intros Hoff.
  destruct (hessian_cases data offset Hoff)
    as [(Hend & _ & Hg)|[(Hlast & _ & Hg)|(p & L & Hp & Hp2 & Hpl & HL & _ & Hg)]].
  - exists (len data), []. split; [exact Hg|]. split; [lia|].
    split; [lia|]. split; [unfold len; simpl; lia|].
    rewrite slice_in_bounds by (unfold len; simpl; lia).
    unfold len. simpl. by rewrite Z.sub_0_r, Z.sub_diag.
  - exists (len data), []. split; [exact Hg|]. split; [lia|].
    split; [lia|]. split; [unfold len; simpl; lia|].
    rewrite slice_in_bounds by (unfold len; simpl; lia).
    unfold len. simpl. by rewrite Z.sub_0_r, Z.sub_diag.
  - eexists _, _. split; [exact Hg|].
    assert (Hlen : len (take (Z.to_nat L) (drop (Z.to_nat p) data))
                   = Z.min L (len data - p)).
    { unfold len in *. rewrite length_take, length_drop. lia. }
    split; [lia|]. split; [lia|]. split; [lia|].
    rewrite Hlen. rewrite slice_in_bounds by lia. f_equal.
    replace (Z.to_nat (Z.min (p + L) (len data)
                       - (Z.min (p + L) (len data) - Z.min L (len data - p))))
      with (Z.to_nat L `min` length (drop (Z.to_nat p) data))%nat
      by (unfold len in *; rewrite length_drop; lia).
    replace (Z.min (p + L) (len data) - Z.min L (len data - p)) with p by lia.
    apply take_min_length.
Qed.

(** X2 on [0x05 "ab"]. *)
Lemma hessian_getStringValue_in_bounds_witness :
  0 <= 0 /\
  exists n s,
    getStringValue (x05 :: bs "ab") 0 = Some (n, s) /\
    n <= len (x05 :: bs "ab") /\
    (0 < len (x05 :: bs "ab") -> 0 < n) /\
    len s <= 1023 /\
    slice (x05 :: bs "ab") (n - len s) n = Some s.
Proof.
  split; [lia|].
  apply (hessian_getStringValue_in_bounds (x05 :: bs "ab") 0). lia.
Defined.

(** X3: inside [data], [eatString] always moves forward, by at least one
    byte and at most 1025 (two tag bytes and 1023 bytes of text), so a loop
    that skips strings with it makes progress. *)
Theorem hessian_eatString_advances (data : list byte) (offset : Z) :
  0 <= offset < len data ->
  exists e, eatString data offset = Some e /\ offset < e <= offset + 1025.
Proof.
  intros [Hoff Hin].
  destruct (hessian_cases data offset Hoff)
    as [(Hend & _)|[(Hlast & He & _)|(p & L & Hp & Hp2 & _ & HL & He & _)]].
  - lia.
  - exists (len data). split; [exact He | lia].
  - exists (p + L). split; [exact He | lia].
Qed.

(** X3 on [0x31 0x02 "abc"]. *)
Lemma hessian_eatString_advances_witness :
  0 <= 0 < len (x31 :: x02 :: bs "abc") /\
  exists e, eatString (x31 :: x02 :: bs "abc") 0 = Some e /\
            0 < e <= 0 + 1025.
Proof.
  assert (H : 0 <= 0 < len (x31 :: x02 :: bs "abc"))
    by (unfold len; simpl; lia).
  split; [exact H|].
  exact (hessian_eatString_advances (x31 :: x02 :: bs "abc") 0 H).
Defined.

Lemma drop_past_prefix (pre mid rest : list byte) :
  drop (Z.to_nat (len pre + len mid)) (pre ++ mid ++ rest) = rest.
Proof.
  unfold len. rewrite app_assoc.
  replace (Z.to_nat (Z.of_nat (length pre) + Z.of_nat (length mid)))
    with (length (pre ++ mid)) by (rewrite length_app; lia).
  apply drop_app_length.
Qed.

(** X4: reading back a string laid out in either form.  After a one-byte
    tag equal to the length of [value] (and outside [[0x30,0x33]]), or
    after a two-byte tag [t], [next] with [(t-0x30)*256 + next] equal to
    the length of [value], [getStringValue] returns [value] and the offset
    just past it, and [eatString] returns the same offset, whatever comes
    before and after. *)
Theorem hessian_string_round_trip (pre value post : list byte)
    (tag next : byte) :
  (u8 tag = len value -> ~ (0x30 <= u8 tag <= 0x33) ->
   getStringValue (pre ++ [tag] ++ value ++ post) (len pre)
     = Some (len pre + 1 + len value, value) /\
   eatString (pre ++ [tag] ++ value ++ post) (len pre)
     = Some (len pre + 1 + len value)) /\
  (0x30 <= u8 tag <= 0x33 -> (u8 tag - 0x30) * 256 + u8 next = len value ->
   getStringValue (pre ++ [tag; next] ++ value ++ post) (len pre)
     = Some (len pre + 2 + len value, value) /\
   eatString (pre ++ [tag; next] ++ value ++ post) (len pre)
     = Some (len pre + 2 + len value)).
Proof.
  pose proof (len_nonneg pre) as Hpre. pose proof (len_nonneg value) as Hv.
  pose proof (len_nonneg post) as Hpost.
  split.
  - intros Hlen Hrange. apply is_len2_tag_false in Hrange.
    assert (Hdata : len (pre ++ [tag] ++ value ++ post)
                    = len pre + 1 + len value + len post).
    { rewrite !len_app. unfold len. simpl. lia. }
    assert (Hdrop : drop (Z.to_nat (len pre + 1)) (pre ++ [tag] ++ value ++ post)
                    = value ++ post).
    { replace (len pre + 1) with (len pre + len [tag]) by reflexivity.
      apply drop_past_prefix. }
    assert (Htag : index (pre ++ [tag] ++ value ++ post) (len pre) = Some tag)
      by (by apply index_middle).
    set (data := pre ++ [tag] ++ value ++ post) in *.
    unfold getStringValue, eatString.
    rewrite !decide_False by lia.
    rewrite Htag. simpl. rewrite Hrange. split; [|by rewrite Hlen].
    rewrite readValue_spec by lia.
    rewrite Hdata, Hlen, Hdrop. rewrite Z.min_l by lia. do 2 f_equal.
    unfold len. rewrite Nat2Z.id. apply take_app_length.
  - intros Hrange Hlen. pose proof Hrange as Hin.
    apply is_len2_tag_true in Hin.
    assert (Hdata : len (pre ++ [tag; next] ++ value ++ post)
                    = len pre + 2 + len value + len post).
    { rewrite !len_app. unfold len. simpl. lia. }
    assert (Hdrop : drop (Z.to_nat (len pre + 2))
                      (pre ++ [tag; next] ++ value ++ post)
                    = value ++ post).
    { replace (len pre + 2) with (len pre + len [tag; next]) by reflexivity.
      apply drop_past_prefix. }
    assert (Htag : index (pre ++ [tag; next] ++ value ++ post) (len pre)
                   = Some tag)
      by (by apply index_middle).
    assert (Hnext : index (pre ++ [tag; next] ++ value ++ post) (len pre + 1)
                    = Some next).
    { change (pre ++ [tag; next] ++ value ++ post)
        with (pre ++ [tag] ++ next :: value ++ post).
      rewrite app_assoc. apply index_middle.
      rewrite len_app. reflexivity. }
    set (data := pre ++ [tag; next] ++ value ++ post) in *.
    unfold getStringValue, eatString.
    rewrite !decide_False by lia.
    rewrite Htag. simpl. rewrite Hin. rewrite !decide_False by lia.
    rewrite Hnext. simpl. rewrite (len2_value tag next Hrange), Hlen.
    split; [|f_equal; lia].
    rewrite readValue_spec by lia.
    rewrite Hdata, Hdrop. rewrite Z.min_l by lia. do 2 f_equal.
    unfold len. rewrite Nat2Z.id. apply take_app_length.
Qed.

(** X4 on ["k" 0x03 "abc" "z"]: the string after the key is read back. *)
Lemma hessian_string_round_trip_witness :
  getStringValue (bs "k" ++ [x03] ++ bs "abc" ++ bs "z") (len (bs "k"))
  = Some (len (bs "k") + 1 + len (bs "abc"), bs "abc").
Proof.
  apply (proj1 (hessian_string_round_trip (bs "k") (bs "abc") (bs "z")
                  x03 x00)).
  - reflexivity.
  - vm_compute. intros [H _]. apply H. reflexivity.
Defined.

(** *** [getStringValueByKey] *)

(** One iteration of the loop of [getStringValueByKey]. *)
Lemma getStringValueByKey_loop (data key : list byte) (from : Z)
    (firstKeyword : byte) :
  index key 0 = Some firstKeyword ->
  getStringValueByKey data from key =
    r ← for_range from (len data)
          (fun i (_ : unit) =>
             b ← index data i;
             if decide (b = firstKeyword) then
               matchKey ← getStrValue data (len data) i (len key);
               if decide (matchKey = key) then
                 '(_, value) ← getStringValue data (i + len key);
                 Some (Exit value)
               else Some (Continue tt)
             else Some (Continue tt))
          tt;
    match r with
    | Exit value => Some value
    | Continue _ => Some []
    end.
Proof. intros H. unfold getStringValueByKey. rewrite H. reflexivity. Qed.

Lemma index_key_0 (key : list byte) :
  key <> [] -> exists firstKeyword, index key 0 = Some firstKeyword.
Proof. destruct key as [|k0 ks]; [congruence|]. eauto. Qed.

Lemma getStrValue_is_Some (data : list byte) (i length : Z) :
  0 <= i -> 0 <= length ->
  exists m, getStrValue data (len data) i length = Some m /\
            (m = [] \/ slice data i (i + length) = Some m).
Proof.
  intros Hi Hl. unfold getStrValue.
  destruct (decide (i >= len data)); [eauto|].
  destruct (decide (i + length >= len data)); [eauto|].
  rewrite slice_in_bounds by lia. eauto.
Qed.

Lemma getStringValue_is_Some (data : list byte) (offset : Z) :
  0 <= offset -> is_Some (getStringValue data offset).
Proof.
  intros Hoff.
  destruct (hessian_cases data offset Hoff)
    as [(_ & _ & ->)|[(_ & _ & ->)|(p & L & _ & _ & _ & _ & _ & ->)]]; eauto.
Qed.

(** An iteration at an index where [key] does not start goes on. *)
Lemma keyStep_no_match (data key : list byte) (firstKeyword : byte) (i : Z) :
  key <> [] -> 0 <= i < len data ->
  slice data i (i + len key) <> Some key ->
  (b ← index data i;
   if decide (b = firstKeyword) then
     matchKey ← getStrValue data (len data) i (len key);
     if decide (matchKey = key) then
       '(_, value) ← getStringValue data (i + len key);
       Some (Exit value)
     else Some (Continue tt)
   else Some (Continue tt))
  = Some (Continue tt).
Proof.
  intros Hkey Hi Hne.
  destruct (index_in_bounds data i Hi) as [b ->]. simpl.
  destruct (decide (b = firstKeyword)); [|reflexivity].
  destruct (getStrValue_is_Some data i (len key)) as (m & -> & Hm);
    [lia | apply len_nonneg |].
  simpl. destruct (decide (m = key)) as [->|]; [|reflexivity].
  destruct Hm as [->|Hm]; [congruence | contradiction].
Qed.

(** X5: the value of the first occurrence of the key.  When [key] (not
    empty) lies in [data] after [pre], followed by at least one byte, and
    does not lie at any index between [from] and [pre], the Hessian2
    [getStringValueByKey] returns the string that [getStringValue] reads
    directly after the key. *)
Theorem hessian_getStringValueByKey_first_occurrence
    (pre key rest : list byte) (from : Z) :
  key <> [] -> rest <> [] -> 0 <= from <= len pre ->
  (forall i, from <= i < len pre ->
     slice (pre ++ key ++ rest) i (i + len key) <> Some key) ->
  getStringValueByKey (pre ++ key ++ rest) from key
  = snd <$> getStringValue (pre ++ key ++ rest) (len pre + len key).
Proof.
  intros Hkey Hrest Hfrom Hfirst.
  destruct (index_key_0 key Hkey) as [k0 Hk0].
  rewrite (getStringValueByKey_loop _ _ _ k0 Hk0).
  set (data := pre ++ key ++ rest) in *.
  assert (Hlen : len data = len pre + len key + len rest).
  { subst data. rewrite !len_app. lia. }
  assert (0 < len rest).
  { destruct rest; [congruence|]. unfold len. simpl. lia. }
  pose proof (len_nonneg key) as Hlk.
  assert (0 < len key).
  { destruct key; [congruence|]. unfold len. simpl. lia. }
  rewrite (for_range_split _ from (len pre)) by lia.
  rewrite for_range_skip.
  2:{ intros j Hj. apply keyStep_no_match; [exact Hkey | lia |].
      apply Hfirst. lia. }
  rewrite for_range_step by lia.
  assert (Hat : index data (len pre) = Some k0).
  { subst data. rewrite index_app_at by lia.
    rewrite index_app_in by lia.
    rewrite <- Hk0. f_equal. lia. }
  rewrite Hat. simpl. rewrite decide_True by reflexivity.
  assert (Hslice : getStrValue data (len data) (len pre) (len key) = Some key).
  { unfold getStrValue. rewrite !decide_False by lia.
    subst data. by apply slice_middle. }
  rewrite Hslice. simpl. rewrite decide_True by reflexivity.
  destruct (getStringValue_is_Some data (len pre + len key)) as [[n v] ->];
    [lia|].
  reflexivity.
Qed.

(** X5 on [0x00 "k" 0x01 "v" 0x00] for the key ["k"]: the value is
    ["v"]. *)
Lemma hessian_getStringValueByKey_first_occurrence_witness :
  getStringValueByKey ([x00] ++ bs "k" ++ (x01 :: bs "v" ++ [x00])) 0 (bs "k")
  = snd <$> getStringValue ([x00] ++ bs "k" ++ (x01 :: bs "v" ++ [x00]))
              (len [x00] + len (bs "k")).
Proof.
  apply (hessian_getStringValueByKey_first_occurrence
           [x00] (bs "k") (x01 :: bs "v" ++ [x00]) 0).
  - discriminate.
  - discriminate.
  - unfold len. simpl. lia.
  - intros i Hi. unfold len in Hi. simpl in Hi.
    replace i with 0 by lia. vm_compute. discriminate.
Defined.

(** X6: with a key that is not empty and [from] not negative the Hessian2
    [getStringValueByKey] returns without panicking on every [data]; with
    the empty key it panics on every input ([key[0]]). *)
Theorem hessian_getStringValueByKey_panics_only_on_empty_key
    (data key : list byte) (from : Z) :
  (key <> [] -> 0 <= from ->
   is_Some (getStringValueByKey data from key)) /\
  getStringValueByKey data from [] = None.
Proof.
  split; [|reflexivity].
  intros Hkey Hfrom.
  destruct (index_key_0 key Hkey) as [k0 Hk0].
  rewrite (getStringValueByKey_loop _ _ _ k0 Hk0).
  match goal with
  | |- is_Some (for_range ?lo ?hi ?body ?s ≫= _) =>
      destruct (for_range_is_Some body lo hi s) as [r ->]
  end.
  - intros j [] Hj.
    destruct (index_in_bounds data j) as [b ->]; [lia|]. simpl.
    destruct (decide (b = k0)); [|eauto].
    destruct (getStrValue_is_Some data j (len key)) as (m & -> & _);
      [lia | apply len_nonneg |].
    simpl. destruct (decide (m = key)); [|eauto].
    destruct (getStringValue_is_Some data (j + len key)) as [[n v] ->].
    { pose proof (len_nonneg key). lia. }
    simpl. eauto.
  - simpl. destruct r; eauto.
Qed.

(** X6 for the key ["k"] on [data = "k"]. *)
Lemma hessian_getStringValueByKey_panics_only_on_empty_key_witness :
  is_Some (getStringValueByKey (bs "k") 0 (bs "k")).
Proof.
  apply (proj1 (hessian_getStringValueByKey_panics_only_on_empty_key
                  (bs "k") (bs "k") 0)).
  - discriminate.
  - lia.
Defined.

(** X7: a key that is missing gives the empty string.  When [key] (not
    empty) does not lie in [data] at any index from [from] on, the Hessian2
    [getStringValueByKey] returns [""]. *)
Theorem hessian_getStringValueByKey_missing_key
    (data key : list byte) (from : Z) :
  key <> [] -> 0 <= from ->
  (forall i, from <= i -> slice data i (i + len key) <> Some key) ->
  getStringValueByKey data from key = Some [].
Proof.
  intros Hkey Hfrom Hmissing.
  destruct (index_key_0 key Hkey) as [k0 Hk0].
  rewrite (getStringValueByKey_loop _ _ _ k0 Hk0).
  rewrite for_range_skip; [reflexivity|].
  intros j Hj. apply keyStep_no_match; [exact Hkey | lia |].
  apply Hmissing. lia.
Qed.

(** X7 on [data = "abc"] for the key ["k"]. *)
Lemma hessian_getStringValueByKey_missing_key_witness :
  getStringValueByKey (bs "abc") 0 (bs "k") = Some [].
Proof.
  apply (hessian_getStringValueByKey_missing_key (bs "abc") (bs "k") 0).
  - discriminate.
  - lia.
  - intros i Hi Hs.
    pose proof (slice_Some_split _ _ _ _ Hs) as (_ & _ & Hend & _).
    unfold len in Hend. simpl in Hend.
    assert (Hcases : i = 0 \/ i = 1 \/ i = 2) by lia.
    destruct Hcases as [->|[->| ->]]; vm_compute in Hs; discriminate.
Defined.

End HessianMore.

(** ** Fastjson reader: lines, panics, missing keys *)

Module FastjsonMore.
Import Dubbo Dubbo.dubboFastJson FastjsonFields Samples FastjsonFacts.

(** *** The two line readers *)

Lemma eatStep_Continue (data : list byte) (j : Z) :
  eatStep data j tt = Some (Continue tt) ->
  index data j <> Some JsonNextLine.
Proof.
  unfold eatStep. destruct (index data j) as [b|]; simpl; [|discriminate].
  destruct (decide (b = JsonNextLine)); [discriminate|]. congruence.
Qed.

Lemma eatStep_Exit (data : list byte) (j r : Z) :
  eatStep data j tt = Some (Exit r) ->
  index data j = Some JsonNextLine /\ r = j + 1.
Proof.
  unfold eatStep. destruct (index data j) as [b|]; simpl; [|discriminate].
  destruct (decide (b = JsonNextLine)) as [->|]; [|discriminate].
  by intros [= <-].
Qed.

Lemma eatStep_None (data : list byte) (j : Z) :
  eatStep data j tt = None -> index data j = None.
Proof.
  unfold eatStep. destruct (index data j) as [b|]; simpl; [|reflexivity].
  destruct (decide (b = JsonNextLine)); discriminate.
Qed.

(** X8: at every offset that is not negative the Fastjson [eatString]
    returns without panicking, with an offset that is at most [len data]
    and, when the offset was inside [data], greater than it.  The offset
    returned is one past the first newline after [offset]; when no newline
    follows it is [len data]. *)
Theorem fastjson_eatString_first_newline (data : list byte) (offset : Z) :
  0 <= offset ->
  exists n,
    eatString data offset = Some n /\
    n <= len data /\
    (offset < len data -> offset < n) /\
    ((offset + 2 <= n /\ index data (n - 1) = Some JsonNextLine /\
      forall j, offset < j < n - 1 -> index data j <> Some JsonNextLine) \/
     (n = len data /\
      forall j, offset < j -> index data j <> Some JsonNextLine)).
Proof.
  intros Hoff. unfold eatString.
  destruct (decide (offset >= len data)) as [Hend|Hin].
  { exists (len data). split; [reflexivity|]. split; [lia|]. split; [lia|].
    right. split; [reflexivity|]. intros j Hj.
    rewrite index_out_of_bounds by lia. discriminate. }
  pose proof (for_range_search (eatStep data) (offset + 1) (len data)) as H.
  destruct (for_range (offset + 1) (len data) (eatStep data) tt)
    as [[[]|r]|]; simpl.
  - exists (len data). split; [reflexivity|]. split; [lia|]. split; [lia|].
    right. split; [reflexivity|]. intros j Hj.
    destruct (decide (j < len data)) as [Hlt|Hge].
    + apply eatStep_Continue. apply H. lia.
    + rewrite index_out_of_bounds by lia. discriminate.
  - destruct H as (j & Hj & Hex & Hbefore).
    apply eatStep_Exit in Hex as [Hnl ->].
    exists (j + 1). split; [reflexivity|]. split; [lia|]. split; [lia|].
    left. split; [lia|]. replace (j + 1 - 1) with j by lia.
    split; [exact Hnl|]. intros k Hk. apply eatStep_Continue.
    apply Hbefore. lia.
  - destruct H as (j & Hj & Hnone & _). apply eatStep_None in Hnone.
    destruct (index_in_bounds data j) as [b Hb]; [lia|]. congruence.
Qed.

(** X8 on ["ab\ncd"] at offset [0]. *)
Lemma fastjson_eatString_first_newline_witness :
  0 <= 0 /\
  exists n,
    eatString (bs "ab" ++ nl ++ bs "cd") 0 = Some n /\
    n <= len (bs "ab" ++ nl ++ bs "cd") /\
    (0 < len (bs "ab" ++ nl ++ bs "cd") -> 0 < n) /\
    ((0 + 2 <= n /\
      index (bs "ab" ++ nl ++ bs "cd") (n - 1) = Some JsonNextLine /\
      forall j, 0 < j < n - 1 ->
        index (bs "ab" ++ nl ++ bs "cd") j <> Some JsonNextLine) \/
     (n = len (bs "ab" ++ nl ++ bs "cd") /\
      forall j, 0 < j ->
        index (bs "ab" ++ nl ++ bs "cd") j <> Some JsonNextLine)).
Proof.
  split; [lia|].
  apply (fastjson_eatString_first_newline (bs "ab" ++ nl ++ bs "cd") 0). lia.
Defined.

Lemma valueStep_None (data : list byte) (offset j : Z) :
  valueStep data offset j tt = None ->
  index data j = None \/
  (index data j = Some JsonNextLine /\
   slice data (offset + 1) (j - 1) = None).
Proof.
  unfold valueStep. destruct (index data j) as [b|]; simpl; [|by left].
  destruct (decide (b = JsonNextLine)) as [->|]; [|discriminate].
  destruct (slice data (offset + 1) (j - 1)); simpl; [discriminate|].
  right. by split.
Qed.

(** X9: where the Fastjson [getStringValue] panics.  At an offset that is
    not negative it panics exactly when the byte directly after [offset] is
    a newline (the slice [data[offset+1 : i-1]] then has its bounds
    reversed); on every other input it returns. *)
Theorem fastjson_getStringValue_panics_iff (data : list byte) (offset : Z) :
  0 <= offset ->
  (getStringValue data offset = None <->
   index data (offset + 1) = Some JsonNextLine).
Proof.
  intros Hoff. unfold getStringValue.
  destruct (decide (offset >= len data)) as [Hend|Hin].
  { split; [discriminate|]. rewrite index_out_of_bounds by lia.
    discriminate. }
  split.
  - pose proof (for_range_search (valueStep data offset) (offset + 1)
                  (len data)) as H.
    destruct (for_range (offset + 1) (len data) (valueStep data offset) tt)
      as [[[]|r]|]; simpl; [discriminate..|].
    intros _. destruct H as (j & Hj & Hnone & _).
    apply valueStep_None in Hnone as [Hidx|[Hnl Hslice]].
    + destruct (index_in_bounds data j) as [b Hb]; [lia|]. congruence.
    + assert (j = offset + 1); [|by subst j].
      destruct (decide (j = offset + 1)) as [|Hne]; [assumption|].
      rewrite slice_in_bounds in Hslice by lia. discriminate.
  - intros Hnl. pose proof (index_Some_bounds _ _ _ Hnl) as Hb.
    rewrite for_range_step by lia. unfold valueStep at 1.
    rewrite Hnl. simpl.
    rewrite (PayloadFacts.slice_None data (offset + 1) (offset + 1 - 1))
      by lia.
    reflexivity.
Qed.

(** X9 on ["x\n"] at offset [0]. *)
Lemma fastjson_getStringValue_panics_iff_witness :
  0 <= 0 /\
  (getStringValue (bs "x" ++ nl) 0 = None <->
   index (bs "x" ++ nl) (0 + 1) = Some JsonNextLine).
Proof.
  split; [lia|].
  apply (fastjson_getStringValue_panics_iff (bs "x" ++ nl) 0). lia.
Defined.

(** X10 on the quoted line ["abc"\n]: both readers return [6]. *)
Lemma getStringValue_eatString_witness :
  getStringValue (q ++ bs "abc" ++ q ++ nl) 0 = Some (6, bs "abc") /\
  eatString (q ++ bs "abc" ++ q ++ nl) 0 = Some 6.
Proof.
  assert (H : getStringValue (q ++ bs "abc" ++ q ++ nl) 0
              = Some (6, bs "abc")) by reflexivity.
  split; [exact H|].
  exact (getStringValue_eatString (q ++ bs "abc" ++ q ++ nl) 0 6 (bs "abc") H).
Defined.

(** X11: reading back a line.  When [data] holds, after [pre], one byte
    [a], the text [x], one byte [b] and a newline, with no newline in [x]
    and [b] not a newline, the Fastjson [getStringValue] at [a] returns [x]
    and the offset just past the newline.  The two bytes around [x] are
    dropped unseen: for ["x"\n] they are the quotes. *)
Theorem fastjson_getStringValue_line (pre x post : list byte) (a b : byte) :
  JsonNextLine ∉ x -> b <> JsonNextLine ->
  getStringValue (pre ++ [a] ++ x ++ [b] ++ [JsonNextLine] ++ post) (len pre)
  = Some (len pre + len x + 3, x).
Proof.
  intros Hx Hb.
  pose proof (len_nonneg pre) as Hlp. pose proof (len_nonneg x) as Hlx.
  pose proof (len_nonneg post) as Hlpost.
  assert (Hlen : len (pre ++ [a] ++ x ++ [b] ++ [JsonNextLine] ++ post)
                 = len pre + len x + 3 + len post).
  { rewrite !len_app. unfold len. simpl. lia. }
  assert (Hbody : forall j, len pre + 1 <= j < len pre + len x + 2 ->
            exists c, index (pre ++ [a] ++ x ++ [b] ++ [JsonNextLine] ++ post) j
                      = Some c /\ c <> JsonNextLine).
  { intros j Hj. cbn [app].
    destruct (decide (j < len pre + 1 + len x)) as [Hin|Hlast].
    - destruct (index_segment_ne x JsonNextLine (j - len pre - 1) Hx)
        as (c & Hc & Hne); [lia|].
      exists c. split; [|exact Hne]. index_at. rewrite <- Hc. f_equal; lia.
    - exists b. split; [|exact Hb]. by index_at. }
  assert (Hnl : index (pre ++ [a] ++ x ++ [b] ++ [JsonNextLine] ++ post)
                  (len pre + len x + 2) = Some JsonNextLine).
  { cbn [app]. by index_at. }
  assert (Hslice : slice (pre ++ [a] ++ x ++ [b] ++ [JsonNextLine] ++ post)
                     (len pre + 1) (len pre + len x + 2 - 1) = Some x).
  { rewrite (app_assoc pre [a]). apply slice_middle.
    - rewrite len_app. reflexivity.
    - rewrite len_app. unfold len. simpl. lia. }
  set (data := pre ++ _) in *.
  unfold getStringValue. rewrite decide_False by lia.
  rewrite (for_range_split _ (len pre + 1) (len pre + len x + 2)) by lia.
  rewrite for_range_skip.
  2:{ intros j Hj. destruct (Hbody j Hj) as (c & Hc & Hne).
      unfold valueStep. rewrite Hc. simpl.
      destruct (decide (c = JsonNextLine)); [contradiction | reflexivity]. }
  rewrite for_range_step by lia. unfold valueStep at 1.
  rewrite Hnl. simpl. rewrite Hslice. simpl.
  replace (len pre + len x + 2 + 1) with (len pre + len x + 3) by lia.
  reflexivity.
Qed.

(** X11 on the quoted line ["abc"\n] after ["zz\n"]. *)
Lemma fastjson_getStringValue_line_witness :
  getStringValue
    ((bs "zz" ++ nl) ++ q ++ bs "abc" ++ q ++ [JsonNextLine] ++ bs "rest")
    (len (bs "zz" ++ nl))
  = Some (len (bs "zz" ++ nl) + len (bs "abc") + 3, bs "abc").
Proof.
  apply (fastjson_getStringValue_line (bs "zz" ++ nl) (bs "abc") (bs "rest")
           JsonQutoes JsonQutoes).
  - intros H. vm_compute in H.
    repeat (apply elem_of_cons in H as [H|H]; [discriminate|]).
    by apply elem_of_nil in H.
  - discriminate.
Defined.

(** *** [getStringValueByKey] *)

Lemma getNextString_is_Some (data : list byte) (offset : Z) :
  -1 <= offset -> is_Some (getNextString data (len data) offset).
Proof.
  intros Hoff. unfold getNextString.
  destruct (decide (offset >= len data)); [eauto|].
  match goal with
  | |- is_Some (for_range ?lo ?hi ?body ?s ≫= _) =>
      destruct (for_range_is_Some body lo hi s) as [r ->]
  end.
  - intros j [] Hj. destruct (index_in_bounds data j) as [b ->]; [lia|].
    simpl. destruct (decide (b = JsonQutoes)); [|eauto].
    rewrite slice_in_bounds by lia. simpl. eauto.
  - simpl. destruct r; eauto.
Qed.

Lemma getNextString_unterminated (data : list byte) (offset : Z) :
  -1 <= offset ->
  (forall j, offset < j < len data ->
     exists b, index data j = Some b /\ b <> JsonQutoes) ->
  getNextString data (len data) offset = Some [].
Proof.
  intros Hoff Hnone. unfold getNextString.
  destruct (decide (offset >= len data)); [reflexivity|].
  rewrite for_range_skip; [reflexivity|].
  intros j Hj. destruct (Hnone j) as (b & -> & Hne); [lia|]. simpl.
  destruct (decide (b = JsonQutoes)); [contradiction | reflexivity].
Qed.

Lemma scanStep_is_Some (data key : list byte) (j s : Z) :
  endsOutsideField data -> 0 <= j < len data -> 0 <= s ->
  exists r, scanStep data key j s = Some r /\
            forall s1, r = Continue s1 -> 0 <= s1.
Proof.
  intros Hlast Hj Hs. unfold scanStep, and_then.
  destruct (index_in_bounds data j Hj) as [b Hb]. rewrite Hb. simpl.
  destruct (decide (b = JsonQutoes)) as [->|].
  2:{ eexists. split; [reflexivity|]. intros s1 [= <-]. exact Hs. }
  destruct (decide (s = 0)).
  { eexists. split; [reflexivity|]. intros s1 [= <-]. lia. }
  assert (Hj1 : j + 1 < len data).
  { destruct (decide (j = len data - 1)) as [->|]; [|lia].
    destruct (Hlast _ Hb) as [Hq _]. congruence. }
  destruct (index_in_bounds data (j + 1)) as [b1 Hb1]; [lia|].
  rewrite Hb1. simpl.
  destruct (bool_decide_reflect (b1 = JsonColon)) as [->|]; simpl.
  2:{ eexists. split; [reflexivity|]. intros s1 [= <-]. lia. }
  assert (Hj2 : j + 2 < len data).
  { destruct (decide (j + 1 = len data - 1)) as [Heq|]; [|lia].
    rewrite Heq in Hb1. destruct (Hlast _ Hb1) as [_ Hc]. congruence. }
  destruct (index_in_bounds data (j + 2)) as [b2 Hb2]; [lia|].
  rewrite Hb2. simpl.
  destruct (bool_decide (b2 = JsonQutoes)); simpl.
  2:{ eexists. split; [reflexivity|]. intros s1 [= <-]. lia. }
  destruct (bool_decide_reflect (j - s - 1 = len key)) as [Hlen|]; simpl.
  2:{ eexists. split; [reflexivity|]. intros s1 [= <-]. lia. }
  pose proof (len_nonneg key).
  rewrite slice_in_bounds by lia. simpl.
  destruct (bool_decide (_ = key)); simpl.
  2:{ eexists. split; [reflexivity|]. intros s1 [= <-]. lia. }
  destruct (getNextString_is_Some data (j + 2)) as [v ->]; [lia|].
  simpl. eexists. split; [reflexivity|]. intros s1 [=].
Qed.

Lemma getStringValueByKey_is_Some (data key : list byte) (from : Z) :
  0 <= from -> endsOutsideField data ->
  is_Some (getStringValueByKey data from key).
Proof.
  intros Hfrom Hlast. unfold getStringValueByKey.
  destruct (for_range_is_Some_inv (scanStep data key) (fun s => 0 <= s)
              from (len data) 0) as [r ->].
  - lia.
  - intros j s0 Hj Hs0. apply scanStep_is_Some; [exact Hlast | lia | exact Hs0].
  - simpl. destruct r; eauto.
Qed.

(** X12: when the scan cannot panic.  With [from] not negative and a last
    byte of [data] that is neither a quote nor a colon (a line ends in a
    newline), the Fastjson [getStringValueByKey] returns for every key: the
    two bytes it reads after a quote are then always inside [data]. *)
Theorem fastjson_getStringValueByKey_returns (data key : list byte)
    (from : Z) :
  0 <= from ->
  (forall b, index data (len data - 1) = Some b ->
             b <> JsonQutoes /\ b <> JsonColon) ->
  exists value, getStringValueByKey data from key = Some value.
Proof. intros Hfrom Hlast. by apply getStringValueByKey_is_Some. Qed.

(** X12 on [a"b"\n], the sample of C10 with a newline after it. *)
Lemma fastjson_getStringValueByKey_returns_witness :
  exists value,
    getStringValueByKey (bs "a" ++ q ++ bs "b" ++ q ++ nl) 0 (bs "k")
    = Some value.
Proof.
  apply (fastjson_getStringValueByKey_returns
           (bs "a" ++ q ++ bs "b" ++ q ++ nl) (bs "k") 0).
  - lia.
  - intros b Hb. vm_compute in Hb. injection Hb as <-.
    split; discriminate.
Defined.

(** X13: a key that is missing gives the empty string.  With [from] not
    negative and a last byte that is neither a quote nor a colon, when the
    bytes of a field for [key], up to the opening quote of its value, do
    not lie in [data] at any index from [from] on, the Fastjson
    [getStringValueByKey] returns the empty string. *)
Theorem fastjson_getStringValueByKey_missing_key (data key : list byte)
    (from : Z) :
  0 <= from ->
  (forall b, index data (len data - 1) = Some b ->
             b <> JsonQutoes /\ b <> JsonColon) ->
  (forall i, from <= i ->
     slice data i (i + len (fieldStart key)) <> Some (fieldStart key)) ->
  getStringValueByKey data from key = Some [].
Proof.
  intros Hfrom Hlast Hmissing.
  destruct (getStringValueByKey_is_Some data key from Hfrom Hlast)
    as [value Hvalue].
  rewrite Hvalue. f_equal.
  destruct value as [|v0 value]; [reflexivity|]. exfalso.
  destruct (getStringValueByKey_sound data key from (v0 :: value) Hvalue)
    as (pre & post & Hdata & Hpre); [discriminate|].
  apply (Hmissing (len pre) Hpre). subst data.
  replace (field key (v0 :: value) ++ post)
    with (fieldStart key ++ (v0 :: value) ++ JsonQutoes :: post).
  - by apply slice_middle.
  - unfold field, fieldStart. simpl. f_equal.
    rewrite <- !app_assoc. simpl. by rewrite <- app_assoc.
Qed.

(** X13 on ["a":"b"\n] (after one byte) for the key ["k"]. *)
Lemma fastjson_getStringValueByKey_missing_key_witness :
  getStringValueByKey (bs "x" ++ line (bs "a", bs "b")) 0 (bs "k") = Some [].
Proof.
  apply (fastjson_getStringValueByKey_missing_key
           (bs "x" ++ line (bs "a", bs "b")) (bs "k") 0).
  - lia.
  - intros b Hb. vm_compute in Hb. injection Hb as <-.
    split; discriminate.
  - intros i Hi Hs.
    pose proof (slice_Some_split _ _ _ _ Hs) as (_ & _ & Hend & _).
    change (len (bs "x" ++ line (bs "a", bs "b"))) with 9 in Hend.
    change (len (fieldStart (bs "k"))) with 5 in Hend.
    assert (Hcases : i = 0 \/ i = 1 \/ i = 2 \/ i = 3 \/ i = 4) by lia.
    destruct Hcases as [->|[->|[->|[->| ->]]]];
      vm_compute in Hs; discriminate.
Defined.

Lemma fieldStart_app (key tail : list byte) :
  fieldStart key ++ tail
  = JsonQutoes :: key ++ JsonQutoes :: JsonColon :: JsonQutoes :: tail.
Proof. unfold fieldStart. simpl. by rewrite <- app_assoc. Qed.

(** From outside a string, the scan finds the key, looks for the closing
    quote of the value, and finds none. *)
Lemma scan_field_unterminated (key pre tail : list byte) :
  0 < len pre -> JsonQutoes ∉ key -> JsonQutoes ∉ tail ->
  for_range (len pre) (len (pre ++ fieldStart key ++ tail))
    (scanStep (pre ++ fieldStart key ++ tail) key) 0
  = Some (Exit []).
Proof.
  intros Hpre Hk Ht. rewrite fieldStart_app.
  pose proof (len_nonneg key) as Hlk. pose proof (len_nonneg tail) as Hlt.
  set (data := pre ++ _).
  assert (Hlen : len data = len pre + len key + 4 + len tail).
  { subst data. rewrite len_app, len_cons, len_app, !len_cons. lia. }
  assert (Hopen : index data (len pre) = Some JsonQutoes).
  { subst data. by index_at. }
  assert (Hkey : forall j, len pre + 1 <= j < len pre + 1 + len key ->
            exists b, index data j = Some b /\ b <> JsonQutoes).
  { intros j Hj.
    destruct (index_segment_ne key JsonQutoes (j - len pre - 1) Hk)
      as (b & Hb & Hne); [lia|].
    exists b. split; [|exact Hne]. subst data. index_at.
    rewrite <- Hb. f_equal; lia. }
  assert (Hclose : index data (len pre + 1 + len key) = Some JsonQutoes).
  { subst data. by index_at. }
  assert (Hcolon : index data (len pre + 1 + len key + 1) = Some JsonColon).
  { subst data. by index_at. }
  assert (Hvopen : index data (len pre + 1 + len key + 2) = Some JsonQutoes).
  { subst data. by index_at. }
  assert (Htail : forall j, len pre + 1 + len key + 2 < j < len data ->
            exists b, index data j = Some b /\ b <> JsonQutoes).
  { intros j Hj.
    destruct (index_segment_ne tail JsonQutoes (j - len pre - len key - 4) Ht)
      as (b & Hb & Hne); [lia|].
    exists b. split; [|exact Hne]. subst data. index_at.
    rewrite <- Hb. f_equal; lia. }
  assert (Hskey : slice data (len pre + 1) (len pre + 1 + len key) = Some key).
  { subst data.
    change (pre ++ JsonQutoes :: key ++ ?r)
      with (pre ++ [JsonQutoes] ++ key ++ r).
    rewrite (app_assoc pre).
    apply slice_middle; rewrite len_app; unfold len; simpl; lia. }
  clearbody data.
  rewrite for_range_step by lia.
  rewrite (scanStep_open _ _ _ Hopen).
  rewrite (for_range_split _ (len pre + 1) (len pre + 1 + len key)) by lia.
  rewrite (scan_skip _ _ _ _ _ Hkey).
  rewrite for_range_step by lia.
  rewrite (scanStep_hit _ _ (len pre + 1 + len key) (len pre) []);
    [ reflexivity | exact Hclose | lia | exact Hcolon | exact Hvopen | lia
      | exact Hskey | ].
  apply getNextString_unterminated; [lia | exact Htail].
Qed.

(** X14: a value without closing quote gives the empty string.  On data
    laid out as for C6 (bytes without quote, lines for other keys), when
    the field for [key] opens its value and no quote follows, the Fastjson
    [getStringValueByKey] returns the empty string, not the bytes that
    follow. *)
Theorem fastjson_getStringValueByKey_unterminated_value
    (junk key tail : list byte) (others : list (list byte * list byte))
    (from : Z) :
  0 <= from <= len junk -> 0 < len junk ->
  JsonQutoes ∉ drop (Z.to_nat from) junk ->
  Forall (other_line key) others ->
  JsonQutoes ∉ key -> JsonQutoes ∉ tail ->
  getStringValueByKey (junk ++ lines others ++ fieldStart key ++ tail)
    from key
  = Some [].
Proof.
  intros Hfrom Hjunk Hq Hothers Hk Ht. unfold getStringValueByKey.
  set (data := junk ++ _).
  pose proof (len_nonneg (lines others)) as Hll.
  pose proof (len_nonneg (fieldStart key ++ tail)) as Hlf.
  assert (Hlen : len data
                 = len junk + len (lines others)
                   + len (fieldStart key ++ tail)).
  { subst data. rewrite !len_app. lia. }
  rewrite (for_range_split _ from (len junk)) by lia.
  subst data.
  rewrite (scan_junk key junk _ from Hfrom Hq).
  rewrite (for_range_split _ _ (len junk + len (lines others)))
    by (rewrite Hlen; lia).
  rewrite (scan_lines key others junk _ Hjunk Hothers).
  rewrite (app_assoc junk (lines others)).
  replace (len junk + len (lines others))
    with (len (junk ++ lines others)) by apply len_app.
  rewrite scan_field_unterminated; [reflexivity | | exact Hk | exact Ht].
  rewrite len_app. lia.
Qed.

(** X14 on one byte, the opening of the field for ["k"], and ["abc"]
    without a quote after it. *)
Lemma fastjson_getStringValueByKey_unterminated_value_witness :
  getStringValueByKey
    (bs "x" ++ lines [] ++ fieldStart (bs "k") ++ bs "abc") 0 (bs "k")
  = Some [].
Proof.
  apply (fastjson_getStringValueByKey_unterminated_value
           (bs "x") (bs "k") (bs "abc") [] 0).
  - unfold len. simpl. lia.
  - unfold len. simpl. lia.
  - simpl. intros H. apply list_elem_of_singleton in H. discriminate.
  - constructor.
  - intros H. apply list_elem_of_singleton in H. discriminate.
  - intros H. vm_compute in H.
    repeat (apply elem_of_cons in H as [H|H]; [discriminate|]).
    by apply elem_of_nil in H.
Defined.

End FastjsonMore.

(** ** DNS responses: verdicts, frames, answer records *)

Module DnsMore.
Import Protocol Dns DnsRecords Samples PayloadFacts DnsFacts.

Section WithEnv.
Context {env : Env}.

Lemma readIpV4Answer_Data (message : PayloadMessage) (answerCount : Z) :
  Data (readIpV4Answer message answerCount).1 = Data message.
Proof.
  unfold readIpV4Answer. destruct (answerLoop message answerCount).
  case_decide; reflexivity.
Qed.

(** X15: the parser never asks for more bytes and never touches the
    bytes: for every message [done] is [true] and [Data] is as it was; and
    whenever it rejects, for whatever reason, the attributes are as they
    were. *)
Theorem parseDnsResponse_done_and_frame (message : PayloadMessage) :
  (parseDnsResponse message).1.2 = true /\
  Data (parseDnsResponse message).2 = Data message /\
  ((parseDnsResponse message).1.1 = false ->
   attributeMap (parseDnsResponse message).2 = attributeMap message).
Proof.
  unfold parseDnsResponse.
  destruct (_ || _); [repeat split|].
  destruct (readQuery message _) as [offset' [domain|]]; [|repeat split].
  destruct (readIpV4Answer _ _) as [m1 ip] eqn:Hanswer.
  assert (Hm1 : Data m1 = Data message).
  { change m1 with (m1, ip).1. rewrite <- Hanswer.
    by rewrite readIpV4Answer_Data. }
  cbn [fst snd]. split; [reflexivity|]. split; [|discriminate].
  destruct (bool_decide (_ > 0)), (bool_decide (0 < String.length ip)%nat);
    exact Hm1.
Qed.

(** X16: when the parser accepts.  A message is accepted exactly when the
    response bit is set, the opcode is at most 2, the response code at most
    5, there is a question, the 16-bit sum of the four record counts is at
    most [MaxNumRR], and the question reader returns a domain. *)
Theorem parseDnsResponse_accepts_iff (message : PayloadMessage) :
  (parseDnsResponse message).1.1 = true <->
  Z.land (Z.shiftr (headerWord message 2) 15) 0x1 <> 0 /\
  Z.land (Z.shiftr (headerWord message 2) 11) 0xf <= 2 /\
  Z.land (headerWord message 2) 0xf <= 5 /\
  headerWord message 4 <> 0 /\
  wrappedCount message <= MaxNumRR /\
  is_Some (readQuery message (headerWord message 4)).2.
Proof.
  unfold parseDnsResponse.
  fold (headerWord message 2) (headerWord message 4) (headerWord message 6)
    (headerWord message 8) (headerWord message 10).
  fold (wrappedCount message).
  destruct (_ || _) eqn:Hguard.
  - split; [discriminate|]. intros (Hqr & Hop & Hrc & Hqd & Hrr & _).
    exfalso. revert Hguard.
    rewrite (bool_decide_eq_false_2 _ Hqr).
    rewrite (bool_decide_eq_false_2 (_ > 2)) by lia.
    rewrite (bool_decide_eq_false_2 (_ > 5)) by lia.
    rewrite (bool_decide_eq_false_2 _ Hqd).
    rewrite (bool_decide_eq_false_2 (_ > MaxNumRR)) by lia.
    discriminate.
  - apply orb_false_iff in Hguard as [Hguard Hrr].
    apply orb_false_iff in Hguard as [Hguard Hqd].
    apply orb_false_iff in Hguard as [Hguard Hrc].
    apply orb_false_iff in Hguard as [Hqr Hop].
    apply bool_decide_eq_false in Hqr, Hop, Hrc, Hqd, Hrr.
    destruct (readQuery message (headerWord message 4))
      as [offset' [domain|]]; cbn [fst snd].
    + destruct (readIpV4Answer _ _) as [m1 ip]. cbn [fst snd].
      split; [|reflexivity]. intros _.
      repeat split; try assumption; try lia. eauto.
    + split; [discriminate|]. intros (_ & _ & _ & _ & _ & [d Hd]).
      discriminate.
Qed.

(** X17: what an accepted response gets written.  [dns.domain] is the
    domain the question reader returned; [dns.ip] is the string of the
    answer reader when that string is not empty, and is not written
    otherwise; [error_type] is [ProtocolError] when the response code is
    greater than [0], and is not written otherwise; no attribute other
    than the six of the decoder is changed; and the cursor is where the
    answer reader left it. *)
Theorem parseDnsResponse_writes (message message' : PayloadMessage) :
  parseDnsResponse message = (true, true, message') ->
  exists offset' domain,
    readQuery message (headerWord message 4) = (offset', Some domain) /\
    attributeMap message' !! constlabels.DnsDomain
      = Some (StringValue domain) /\
    attributeMap message' !! constlabels.DnsIp
      = (if bool_decide
              (0 < String.length
                     (readIpV4Answer (setOffset offset' message)
                        (headerWord message 6)).2)%nat
         then Some (StringValue
                      (readIpV4Answer (setOffset offset' message)
                         (headerWord message 6)).2)
         else attributeMap message !! constlabels.DnsIp) /\
    attributeMap message' !! constlabels.ErrorType
      = (if bool_decide (Z.land (headerWord message 2) 0xf > 0)
         then Some (IntValue ProtocolError)
         else attributeMap message !! constlabels.ErrorType) /\
    (forall key,
       key ∉ [constlabels.DnsDomain; constlabels.DnsIp; constlabels.DnsId;
              constlabels.DnsRcode; constlabels.IsError;
              constlabels.ErrorType] ->
       attributeMap message' !! key = attributeMap message !! key) /\
    Offset message'
      = Offset (readIpV4Answer (setOffset offset' message)
                  (headerWord message 6)).1.
Proof.
  unfold parseDnsResponse.
  fold (headerWord message 2) (headerWord message 4) (headerWord message 6)
    (headerWord message 8) (headerWord message 10).
  destruct (_ || _); [discriminate|].
  destruct (readQuery message (headerWord message 4))
    as [offset' [domain|]]; [|discriminate].
  destruct (readIpV4Answer _ _) as [m1 ip] eqn:Hanswer.
  assert (Hm1 : attributeMap m1 = attributeMap message).
  { change m1 with (m1, ip).1. rewrite <- Hanswer.
    by rewrite readIpV4Answer_attributeMap. }
  intros [= <-]. exists offset', domain. split; [reflexivity|].
  rewrite Hanswer. cbn [fst snd].
  destruct (bool_decide (Z.land (headerWord message 2) 15 > 0)),
    (bool_decide (0 < String.length ip)%nat); simpl; rewrite Hm1;
    (split; [by simplify_map_eq|]); (split; [by simplify_map_eq|]);
    (split; [by simplify_map_eq|]); (split; [|reflexivity]);
    intros key Hkey;
    repeat (apply not_elem_of_cons in Hkey as [? Hkey]);
    rewrite ?lookup_insert_ne by congruence; reflexivity.
Qed.

(** *** The answer reader *)

Lemma setOffset_same (message : PayloadMessage) :
  setOffset (Offset message) message = message.
Proof. by destruct message. Qed.

(** X18: without answers to read ([answerCount <= 0]) the answer reader
    returns the empty string and the message as it is; and for every count
    it leaves the bytes and the attributes as they are. *)
Theorem readIpV4Answer_frame (message : PayloadMessage) (answerCount : Z) :
  (answerCount <= 0 ->
   readIpV4Answer message answerCount = (message, EmptyString)) /\
  Data (readIpV4Answer message answerCount).1 = Data message /\
  attributeMap (readIpV4Answer message answerCount).1 = attributeMap message.
Proof.
  split; [|split].
  - intros Hcount. unfold readIpV4Answer, answerLoop, for_range_break.
    replace (Z.to_nat (answerCount - 0)) with O by lia. simpl.
    by rewrite setOffset_same.
  - apply readIpV4Answer_Data.
  - apply readIpV4Answer_attributeMap.
Qed.

Lemma iterate_break_answer_count (message : PayloadMessage) (n : nat)
    (i o : Z) (ips : list string) :
  (length (iterate_break (answerStep message) n i (o, ips)).2
   <= length ips + n)%nat.
Proof.
  revert i o ips. induction n as [|n IH]; intros i o ips;
    cbn [iterate_break]; [simpl; lia|].
  destruct (answerStep message i (o, ips)) as [[o1 ips1]|[o1 ips1]] eqn:Hstep.
  - assert (Hgrow : (length ips1 <= length ips + 1)%nat).
    { destruct (answerStep_addresses message i o o1 ips ips1)
        as [->|(l & d & _ & _ & _ & ->)]; [by left | lia |].
      rewrite length_app. simpl. lia. }
    specialize (IH (i + 1) o1 ips1). lia.
  - destruct (answerStep_addresses message i o o1 ips ips1)
      as [->|(l & d & _ & _ & _ & ->)]; [by right | simpl; lia |].
    simpl. rewrite length_app. simpl. lia.
Qed.

(** X19: the answer reader collects at most [answerCount] addresses. *)
Theorem readIpV4Answer_at_most_answerCount (message : PayloadMessage)
    (answerCount : Z) :
  Z.of_nat (length (answerLoop message answerCount).2)
  <= Z.max 0 answerCount.
Proof.
  unfold answerLoop, for_range_break.
  pose proof (iterate_break_answer_count message
                (Z.to_nat (answerCount - 0)) 0 (Offset message) []) as H.
  simpl in H. lia.
Qed.

Lemma iterate_break_other_records (message : PayloadMessage)
    (records : list (Z * Z)) :
  forall (i o : Z) (ips : list string),
  otherRecordsAt message o records ->
  iterate_break (answerStep message) (length records) i (o, ips)
  = (endOfRecords o records, ips).
Proof.
  induction records as [|[aType rdlength] rest IH]; intros i o ips Hrecs;
    cbn [iterate_break length endOfRecords]; [reflexivity|].
  destruct Hrecs as (Ht & Hne & Hl & Hrest).
  rewrite (answerStep_skips_other_types message i o ips aType rdlength
             Ht Hne Hl).
  by apply IH.
Qed.

(** X20: an answer section without A records.  When the [answerCount]
    answer records lie one after the other from the cursor on, all of
    other types than A (AAAA, CNAME, ...), the answer reader returns the
    empty string and leaves the cursor just past the last record. *)
Theorem readIpV4Answer_no_A_records (message : PayloadMessage)
    (records : list (Z * Z)) :
  otherRecordsAt message (Offset message) records ->
  readIpV4Answer message (Z.of_nat (length records))
  = (setOffset (endOfRecords (Offset message) records) message, EmptyString).
Proof.
  intros Hrecs. unfold readIpV4Answer, answerLoop, for_range_break.
  replace (Z.to_nat (Z.of_nat (length records) - 0)) with (length records)
    by lia.
  by rewrite (iterate_break_other_records message records 0 _ [] Hrecs).
Qed.

(** X21: one answer of type A.  With one answer to read, a record of type
    A at the cursor whose data [ReadBytes] delivers together with the
    offset [next] is returned as the only address, with no comma, and the
    cursor is left at [next + rdlength]: the length of the data is added
    once more to the offset that [ReadBytes] returned. *)
Theorem readIpV4Answer_one_A_record (message : PayloadMessage)
    (rdlength : Z) (rdata : list byte) (next : Z) :
  ReadUInt16 message (Offset message + 2) = (false, TypeA) ->
  ReadUInt16 message (Offset message + 2 + 8) = (false, rdlength) ->
  ReadBytes message (Offset message + 2 + 8 + 2) rdlength
    = (next, Some rdata) ->
  readIpV4Answer message 1
  = (setOffset (next + rdlength) message, IP_String rdata).
Proof.
  intros Ht Hl Hd. unfold readIpV4Answer, answerLoop, for_range_break.
  change (Z.to_nat (1 - 0)) with 1%nat. cbn [iterate_break].
  unfold answerStep. rewrite Ht, Hl.
  rewrite decide_True by reflexivity. rewrite Hd. reflexivity.
Qed.

End WithEnv.

(** *** Samples *)

(** X17 on the A sample: [dns.domain] and [dns.ip] are written, no
    [error_type]. *)
Lemma parseDnsResponse_writes_witness :
  (@parseDnsResponse sampleEnv responseA).1 = (true, true) /\
  exists offset' domain,
    @readQuery sampleEnv responseA (headerWord responseA 4)
      = (offset', Some domain) /\
    attributeMap (@parseDnsResponse sampleEnv responseA).2
      !! constlabels.DnsDomain = Some (StringValue domain).
Proof.
  assert (Hacc : (@parseDnsResponse sampleEnv responseA).1 = (true, true))
    by (vm_compute; reflexivity).
  split; [exact Hacc|].
  destruct (@parseDnsResponse_writes sampleEnv responseA
              (@parseDnsResponse sampleEnv responseA).2)
    as (offset' & domain & Hq & Hd & _).
  { rewrite <- Hacc. symmetry. apply surjective_pairing. }
  exists offset', domain. split; [exact Hq | exact Hd].
Defined.

(** X15 on the header-only sample: rejected, attributes untouched. *)
Lemma parseDnsResponse_done_and_frame_witness :
  (@parseDnsResponse sampleEnv headerOnly).1.1 = false /\
  attributeMap (@parseDnsResponse sampleEnv headerOnly).2
  = attributeMap headerOnly.
Proof.
  assert (H : (@parseDnsResponse sampleEnv headerOnly).1.1 = false)
    by (vm_compute; reflexivity).
  split; [exact H|].
  exact (proj2 (proj2 (@parseDnsResponse_done_and_frame sampleEnv headerOnly))
           H).
Defined.

(** X18 on the A sample with no answer to read. *)
Lemma readIpV4Answer_frame_witness :
  0 <= 0 /\ @readIpV4Answer sampleEnv responseA 0 = (responseA, EmptyString).
Proof.
  split; [lia|].
  apply (proj1 (@readIpV4Answer_frame sampleEnv responseA 0)). lia.
Defined.

(** X20 on the AAAA sample, with the cursor after the question: one record
    of type 28 with 16 bytes of data; the cursor ends at 57, the end of
    the message. *)
Lemma readIpV4Answer_no_A_records_witness :
  otherRecordsAt (setOffset 29 responseAAAA) 29 [(TypeAAAA, 16)] /\
  @readIpV4Answer sampleEnv (setOffset 29 responseAAAA) 1
  = (setOffset 57 (setOffset 29 responseAAAA), EmptyString).
Proof.
  assert (H : otherRecordsAt (setOffset 29 responseAAAA)
                (Offset (setOffset 29 responseAAAA)) [(TypeAAAA, 16)]).
  { simpl. repeat split. discriminate. }
  split; [exact H|].
  exact (@readIpV4Answer_no_A_records sampleEnv (setOffset 29 responseAAAA)
           [(TypeAAAA, 16)] H).
Defined.

(** X21 on the A sample, with the cursor after the question: the address
    is returned alone and the cursor ends at [49], four bytes past the end
    of the 45 bytes of the message. *)
Lemma readIpV4Answer_one_A_record_witness :
  len (Data responseA) = 45 /\
  @readIpV4Answer sampleEnv (setOffset 29 responseA) 1
  = (setOffset 49 responseA, @IP_String sampleEnv addressA).
Proof.
  split; [reflexivity|].
  apply (@readIpV4Answer_one_A_record sampleEnv (setOffset 29 responseA)
           4 addressA 45); reflexivity.
Defined.

End DnsMore.
